(** * xkcd-api.ts: the caching CORS proxy, embedded and verified

    The development follows [src/xkcd-api.ts]: the in-memory cache
    ([getCached], [setCache]), the caching fetch ([fetchWithCache]), the
    three API functions ([getLatestXkcd], [getXkcdByNumber],
    [getRandomXkcd]) and the request [handler].

    Everything the program reads from outside (the clock, the upstream
    server, [Math.random], and the few language coercions that are not
    spelled out here) is gathered in an environment record; the mutable
    parts (the [cache] map, the console, the list of requests sent) are
    threaded through a state-and-exception monad. *)

From Stdlib Require Import ZArith List String Ascii Bool Lia.
From Stdlib Require Import DecimalString DecimalZ DecimalPos.
Import ListNotations.

#[local] Set Warnings "-register-all".

Local Open Scope string_scope.
Local Open Scope Z_scope.

(** ** JavaScript numbers

    A JS number is an IEEE-754 binary64 value.  Two scales are used, both
    through the same rounding function:
    - an integer-valued number is the integer itself;
    - a number in the unit interval (a draw of [Math.random]) is counted in
      units of [2^-1074], the spacing of the smallest doubles, so that every
      double in [0, 1) is a natural number below [2^1074].
    In both scales a value below [2^53] is held exactly and a larger one
    keeps its 53 leading bits, the rest being rounded to nearest, ties to
    even. *)
Module Number.

Definition precision : Z := 53.

(** Round a natural number to 53 significant bits, to nearest, ties to even. *)
Definition round53 (x : Z) : Z :=
  if x <? 2 ^ precision then x
  else
    let s := Z.log2 x - (precision - 1) in
    let q := x / 2 ^ s in
    let r := x mod 2 ^ s in
    let half := 2 ^ (s - 1) in
    if (r <? half) || ((r =? half) && Z.even q)
    then q * 2 ^ s
    else (q + 1) * 2 ^ s.

(** The same on signed values: rounding is symmetric around zero. *)
Definition fl (x : Z) : Z :=
  if x <? 0 then - round53 (- x) else round53 x.

(** [1.0] counted in units of [2^-1074]. *)
Definition one_units : Z := 2 ^ 1074.

(** The first integer that is too large for a finite double. *)
Definition overflow_threshold : Z := 2 ^ 1024.

(** The numbers the program handles: integer-valued doubles, [Infinity]
    (an over-long digit string) and [NaN] (arithmetic on [undefined]). *)
Inductive t : Type :=
| Int (z : Z)
| Infinity
| NaN.

(** Conversion of a mathematical integer to a Number value: the nearest
    double, [Infinity] past the largest finite one. *)
Definition of_Z (z : Z) : t :=
  let r := fl z in
  if overflow_threshold <=? Z.abs r then Infinity else Int r.

(** [Math.floor (r * n)] for a draw [r] of [a] units and an integer [n]:
    the product is rounded once, then floored to an integer. *)
Definition floor_mul (a n : Z) : Z := fl (a * n) / one_units.

(** [x + 1] on an integer-valued double. *)
Definition succ (x : Z) : Z := fl (x + 1).

End Number.

(** A draw of [Math.random]: a double in [0, 1), counted in units. *)
Definition is_random_draw (a : Z) : Prop :=
  0 <= a < Number.one_units /\ Number.round53 a = a.

(** An integer that a JS number holds exactly. *)
Definition is_double (n : Z) : Prop :=
  Number.fl n = n /\ Z.abs n < Number.overflow_threshold.

(** ** JSON values

    The value [response.json()] yields, and the bodies the handler builds
    before [JSON.stringify].  Numbers in payloads are integer-valued (every
    numeric field of the upstream document is). *)
Inductive json : Type :=
| JNull
| JBool (b : bool)
| JNum (z : Z)
| JStr (s : string)
| JArr (items : list json)
| JObj (fields : list (string * json)).

(** JS truthiness, as tested by [if (cached)]. *)
Definition truthy (v : json) : bool :=
  match v with
  | JNull => false
  | JBool b => b
  | JNum z => negb (z =? 0)
  | JStr s => negb (s =? "")%string
  | JArr _ => true
  | JObj _ => true
  end.

(** Own-property lookup in a parsed object. *)
Fixpoint lookup_field (k : string) (fields : list (string * json)) : option json :=
  match fields with
  | [] => None
  | (k', v) :: rest => if (k' =? k)%string then Some v else lookup_field k rest
  end.

(** ** The cache map

    A JS [Map] keeps its keys unique and in insertion order; [set] on a
    present key overwrites in place, on an absent one appends. *)
Module JsMap.
Section Ops.
Context {V : Type}.

Fixpoint get (k : string) (m : list (string * V)) : option V :=
  match m with
  | [] => None
  | (k', v) :: rest => if (k' =? k)%string then Some v else get k rest
  end.

Fixpoint set (k : string) (v : V) (m : list (string * V)) : list (string * V) :=
  match m with
  | [] => [(k, v)]
  | (k', v') :: rest =>
      if (k' =? k)%string then (k, v) :: rest else (k', v') :: set k v rest
  end.

Fixpoint delete (k : string) (m : list (string * V)) : list (string * V) :=
  match m with
  | [] => []
  | (k', v') :: rest =>
      if (k' =? k)%string then delete k rest else (k', v') :: delete k rest
  end.

Definition size (m : list (string * V)) : nat := List.length m.

Definition keys (m : list (string * V)) : list string := map fst m.

Definition clear (m : list (string * V)) : list (string * V) := [].

(** The invariant of a [Map]: no key occurs twice. *)
Definition wf (m : list (string * V)) : Prop := NoDup (keys m).
End Ops.
End JsMap.

(** ** The world outside the program *)

(** What [await fetch(url)] and then [response.json()] can give. *)
Inductive body_result : Type :=
| BodyJson (v : json)
| BodyInvalid (message : string).

Inductive fetch_result : Type :=
| NetworkFailure (message : string)
| HttpResponse (status : Z) (statusText : string) (body : body_result).

Record Env : Type := {
  (** successive readings of the clock ([Date.now()], [new Date()]), in ms *)
  clock : nat -> Z;
  (** the answer to the [i]-th request of the run, sent to [url] *)
  upstream : string -> nat -> fetch_result;
  (** successive draws of [Math.random()], in units of [2^-1074] *)
  random : nat -> Z;
  (** [ToNumber] on a string, an array or an object *)
  to_number_object : json -> Number.t;
  (** [Number::toString] on an integer of magnitude above [2^53]: the
      shortest digits that read back as the same double, in exponent
      notation from [10^21] on *)
  to_shortest : Z -> string;
  (** [Date.prototype.toISOString] *)
  to_iso_string : Z -> string
}.

(** A thrown [Error] object; only its [message] is ever read. *)
Inductive error : Type := Error (message : string).

Definition message (e : error) : string := let 'Error m := e in m.

Inductive console_line : Type :=
| ConsoleLog (line : string)
| ConsoleError (label : string) (e : error).

Record entry : Type := { data : json; timestamp : Z }.

Record State : Type := {
  cache : list (string * entry);
  ticks : nat;
  requests : list string;
  draws : nat;
  console : list console_line
}.

Definition initial_state : State :=
  {| cache := []; ticks := 0; requests := []; draws := 0; console := [] |}.

(** The elementary state changes. *)
Definition with_cache (f : list (string * entry) -> list (string * entry)) (s : State) : State :=
  {| cache := f (cache s); ticks := ticks s; requests := requests s;
     draws := draws s; console := console s |}.

Definition tick (s : State) : State :=
  {| cache := cache s; ticks := S (ticks s); requests := requests s;
     draws := draws s; console := console s |}.

Definition sent (url : string) (s : State) : State :=
  {| cache := cache s; ticks := ticks s; requests := (requests s ++ [url])%list;
     draws := draws s; console := console s |}.

Definition drawn (s : State) : State :=
  {| cache := cache s; ticks := ticks s; requests := requests s;
     draws := S (draws s); console := console s |}.

Definition logged (l : console_line) (s : State) : State :=
  {| cache := cache s; ticks := ticks s; requests := requests s;
     draws := draws s; console := (console s ++ [l])%list |}.

(** ** The state-and-exception monad *)
Inductive outcome (A : Type) : Type :=
| Return (a : A)
| Throw (e : error).
Arguments Return {A} a.
Arguments Throw {A} e.

Definition M (A : Type) : Type := State -> outcome A * State.

Definition ret {A} (a : A) : M A := fun s => (Return a, s).

Definition bind {A B} (m : M A) (f : A -> M B) : M B :=
  fun s =>
    match m s with
    | (Return a, s') => f a s'
    | (Throw e, s') => (Throw e, s')
    end.

Definition throw {A} (e : error) : M A := fun s => (Throw e, s).

Definition try_catch {A} (m : M A) (h : error -> M A) : M A :=
  fun s =>
    match m s with
    | (Return a, s') => (Return a, s')
    | (Throw e, s') => h e s'
    end.

Declare Scope js_scope.
Delimit Scope js_scope with js.
Notation "x <- m ;; k" := (bind m (fun x => k))
  (at level 100, m at next level, right associativity) : js_scope.
Notation "m ;;; k" := (bind m (fun _ => k))
  (at level 100, right associativity) : js_scope.
Local Open Scope js_scope.

(** ** Strings: the pieces of [String.prototype] and [RegExp] the handler uses *)

Definition is_digit (c : ascii) : bool :=
  let n := Z.of_N (N_of_ascii c) in (48 <=? n) && (n <=? 57).

Definition digit_value (c : ascii) : Z := Z.of_N (N_of_ascii c) - 48.

Fixpoint all_digits (s : string) : bool :=
  match s with
  | EmptyString => true
  | String c rest => is_digit c && all_digits rest
  end.

(** [/^\/\d+$/.test(path)]: a slash, then one or more ASCII digits, then the
    end of the string. *)
Definition numeric_path (path : string) : bool :=
  match path with
  | String "/" (String c rest) => is_digit c && all_digits rest
  | _ => false
  end.

(** [s.substring(1)] *)
Definition substring1 (s : string) : string :=
  match s with
  | EmptyString => EmptyString
  | String _ rest => rest
  end.

(** The longest prefix of decimal digits, read as a mathematical integer;
    [None] when the string does not start with a digit. *)
Fixpoint parse_digits (acc : Z) (seen : bool) (s : string) : option Z :=
  match s with
  | EmptyString => if seen then Some acc else None
  | String c rest =>
      if is_digit c then parse_digits (10 * acc + digit_value c) true rest
      else if seen then Some acc else None
  end.

(** [parseInt(s)] with no radix, on a string without leading white space,
    sign or [0x] prefix (the numeric route only passes digits): the digits
    are read in base ten and the integer is converted to the nearest
    double. *)
Definition parseInt (s : string) : Number.t :=
  match parse_digits 0 false s with
  | Some z => Number.of_Z z
  | None => Number.NaN
  end.

(** [x || y] on strings: the empty string is the only falsy one. *)
Definition or_else (x y : string) : string :=
  if (x =? "")%string then y else x.

Definition CACHE_DURATION : Z := 3600000.

Definition corsHeaders : list (string * string) :=
  [ ("Access-Control-Allow-Origin", "*");
    ("Access-Control-Allow-Methods", "GET, POST, OPTIONS");
    ("Access-Control-Allow-Headers", "Content-Type, Authorization, X-Requested-With");
    ("Access-Control-Max-Age", "86400");
    ("Content-Type", "application/json");
    ("Cache-Control", "public, max-age=3600") ].

(** What [fetchWithCache] returns: [{ data, cached }]. *)
Record result : Type := { result_data : json; result_cached : bool }.

(** A [Response]: the status, the headers and the value that is passed to
    [JSON.stringify] ([None] for the [null] body of the preflight answer). *)
Record response : Type := {
  status : Z;
  headers : list (string * string);
  body : option json
}.

(** [Math.floor(Math.random() * num) + 1], for a draw of [a] units. *)
Definition randomNum (a : Z) (num : Number.t) : Number.t :=
  match num with
  | Number.Int n => Number.Int (Number.succ (Number.floor_mul a n))
  | Number.Infinity => if a =? 0 then Number.NaN else Number.Infinity
  | Number.NaN => Number.NaN
  end.

(** ** The program *)
Section Program.
Variable env : Env.

(** [String(n)], as template literals apply it to a number.  An integer of
    magnitude up to [2^53] is printed with all its decimal digits (its
    neighbours are doubles too, so no shorter digit string reads back as
    it); a larger one is printed with the shortest digits that read back as
    the same double, which are not its decimal expansion in general. *)
Definition number_to_string (n : Number.t) : string :=
  match n with
  | Number.Int z =>
      if Z.abs z <=? 2 ^ 53
      then NilZero.string_of_int (Z.to_int z)
      else to_shortest env z
  | Number.Infinity => "Infinity"
  | Number.NaN => "NaN"
  end.

(** [ToNumber], applied to the value of a property read ([None] is
    [undefined]). *)
Definition to_number (v : option json) : Number.t :=
  match v with
  | None => Number.NaN
  | Some JNull => Number.Int 0
  | Some (JBool b) => Number.Int (if b then 1 else 0)
  | Some (JNum z) => Number.Int z
  | Some v => to_number_object env v
  end.

(** *** Primitive effects *)

Definition Date_now : M Z :=
  fun s => (Return (clock env (ticks s)), tick s).

Definition Math_random : M Z :=
  fun s => (Return (random env (draws s)), drawn s).

Definition console_write (l : console_line) : M unit :=
  fun s => (Return tt, logged l s).

Definition read_cache : M (list (string * entry)) :=
  fun s => (Return (cache s), s).

Definition update_cache (f : list (string * entry) -> list (string * entry)) : M unit :=
  fun s => (Return tt, with_cache f s).

(** [await fetch(url)]: one request; a network failure rejects. *)
Definition fetch (url : string) : M (Z * string * body_result) :=
  fun s =>
    match upstream env url (List.length (requests s)) with
    | NetworkFailure m => (Throw (Error m), sent url s)
    | HttpResponse st txt b => (Return (st, txt, b), sent url s)
    end.

(** [response.ok] *)
Definition ok (st : Z) : bool := (200 <=? st) && (st <=? 299).

(** [await response.json()] *)
Definition response_json (b : body_result) : M json :=
  match b with
  | BodyJson v => ret v
  | BodyInvalid m => throw (Error m)
  end.

(** *** Cache helper functions *)

Definition getCached (key : string) : M json :=
  m <- read_cache ;;
  match JsMap.get key m with
  | Some cached =>
      now <- Date_now ;;
      let age := now - timestamp cached in
      if age <? CACHE_DURATION then ret (data cached)
      else (update_cache (JsMap.delete key) ;;; ret JNull)
  | None => ret JNull
  end.

Definition setCache (key : string) (d : json) : M unit :=
  now <- Date_now ;;
  update_cache (JsMap.set key {| data := d; timestamp := now |}).

(** *** Fetch with caching *)

Definition fetchWithCache (url cacheKey : string) : M result :=
  cached <- getCached cacheKey ;;
  if truthy cached then ret {| result_data := cached; result_cached := true |}
  else
    r <- fetch url ;;
    let '(st, txt, b) := r in
    if negb (ok st)
    then throw (Error ("HTTP " ++ number_to_string (Number.Int st) ++ ": " ++ txt))
    else
      d <- response_json b ;;
      (setCache cacheKey d ;;;
       ret {| result_data := d; result_cached := false |}).

(** *** API functions *)

Definition getLatestXkcd : M result :=
  fetchWithCache "https://xkcd.com/info.0.json" "latest".

Definition getXkcdByNumber (num : Number.t) : M result :=
  fetchWithCache
    ("https://xkcd.com/" ++ number_to_string num ++ "/info.0.json")
    ("comic-" ++ number_to_string num).

(** The property read [latest.num]: a [TypeError] on [null], [undefined]
    ([None]) on anything that has no such own property. *)
Definition read_num (latest : json) : M (option json) :=
  match latest with
  | JNull => throw (Error "Cannot read properties of null (reading 'num')")
  | JObj fields => ret (lookup_field "num" fields)
  | _ => ret None
  end.

Definition getRandomXkcd : M result :=
  r <- getLatestXkcd ;;
  let latest := result_data r in
  a <- Math_random ;;
  n <- read_num latest ;;
  let randomNum := randomNum a (to_number n) in
  getXkcdByNumber randomNum.

(** *** Request logging *)

Definition logRequest (method path : string) (st duration : Z) : M unit :=
  now <- Date_now ;;
  console_write
    (ConsoleLog ("[" ++ to_iso_string env now ++ "] " ++ method ++ " " ++ path
                 ++ " - " ++ number_to_string (Number.Int st)
                 ++ " (" ++ number_to_string (Number.Int duration) ++ "ms)")).

(** *** Main handler *)

(** The tail shared by all the cases that [break] out of the [switch]:
    the 200 response is built, the request logged, the response returned. *)
Definition respond (method path : string) (startTime : Z)
           (res : json * bool) (endpoint : string) : M response :=
  stamp <- Date_now ;;
  let response :=
    {| status := 200;
       headers := (corsHeaders ++ [("X-Cache", if snd res then "HIT" else "MISS")])%list;
       body := Some (JObj [ ("success", JBool true);
                            ("data", fst res);
                            ("cached", JBool (snd res));
                            ("endpoint", JStr endpoint);
                            ("timestamp", JStr (to_iso_string env stamp)) ]) |} in
  finish <- Date_now ;;
  (logRequest method path 200 (finish - startTime) ;;;
   ret response).

Definition unpack (r : result) : json * bool := (result_data r, result_cached r).

(** The body of the [try] block. *)
Definition dispatch (method path : string) (startTime : Z) : M response :=
  if (path =? "/")%string || (path =? "/latest")%string then
    r <- getLatestXkcd ;;
    respond method path startTime (unpack r) "latest"
  else if (path =? "/random")%string then
    r <- getRandomXkcd ;;
    respond method path startTime (unpack r) "random"
  else if numeric_path path then
    let num := parseInt (substring1 path) in
    r <- getXkcdByNumber num ;;
    respond method path startTime (unpack r) ("comic-" ++ number_to_string num)
  else if (path =? "/cache/stats")%string then
    m <- read_cache ;;
    respond method path startTime
      (JObj [ ("size", JNum (Z.of_nat (JsMap.size m)));
              ("keys", JArr (map JStr (JsMap.keys m)));
              ("maxAge", JNum CACHE_DURATION) ],
       false)
      path
  else if (path =? "/cache/clear")%string then
    (update_cache JsMap.clear ;;;
     m <- read_cache ;;
     respond method path startTime
       (JObj [ ("message", JStr "Cache cleared");
               ("previousSize", JNum (Z.of_nat (JsMap.size m))) ],
        false)
       path)
  else
    let errorResponse :=
      {| status := 404;
         headers := corsHeaders;
         body := Some (JObj [ ("success", JBool false);
                              ("error", JStr "Not Found");
                              ("path", JStr path) ]) |} in
    finish <- Date_now ;;
    (logRequest method path 404 (finish - startTime) ;;;
     ret errorResponse).

(** The [catch] block. *)
Definition recover (method path : string) (startTime : Z) (e : error) : M response :=
  (console_write (ConsoleError "Error:" e) ;;;
   let errorResponse :=
     {| status := 500;
        headers := corsHeaders;
        body := Some (JObj [ ("success", JBool false);
                             ("error", JStr (or_else (message e) "Internal Server Error")) ]) |} in
   finish <- Date_now ;;
   (logRequest method path 500 (finish - startTime) ;;;
    ret errorResponse)).

Definition handler (method path : string) : M response :=
  startTime <- Date_now ;;
  if (method =? "OPTIONS")%string then
    finish <- Date_now ;;
    (logRequest method path 204 (finish - startTime) ;;;
     ret {| status := 204; headers := corsHeaders; body := None |})
  else
    try_catch (dispatch method path startTime) (recover method path startTime).

End Program.

(** ** Vocabulary of the specification *)

(** The integer a string of decimal digits denotes, by positional notation. *)
Fixpoint denote (d : string) : Z :=
  match d with
  | EmptyString => 0
  | String c rest => digit_value c * 10 ^ Z.of_nat (String.length rest) + denote rest
  end.

(** A path of the form [/{digits}]. *)
Definition comic_path (path : string) : Prop :=
  exists d, path = String "/" d /\ d <> "" /\ all_digits d = true.

(** The paths of the known operations. *)
Definition known_path (path : string) : Prop :=
  path = "/" \/ path = "/latest" \/ path = "/random" \/ comic_path path \/
  path = "/cache/stats" \/ path = "/cache/clear".

Definition contains (s sub : string) : Prop :=
  exists pre post, s = (pre ++ sub ++ post)%string.

(** The error envelope of the [catch] block. *)
Definition error_envelope (msg : string) : response :=
  {| status := 500;
     headers := corsHeaders;
     body := Some (JObj [ ("success", JBool false); ("error", JStr msg) ]) |}.

(** The not-found envelope of the [default] case. *)
Definition not_found_envelope (path : string) : response :=
  {| status := 404;
     headers := corsHeaders;
     body := Some (JObj [ ("success", JBool false);
                          ("error", JStr "Not Found");
                          ("path", JStr path) ]) |}.

(** The message of the error thrown on a non-success upstream status. *)
Definition http_error_message (env : Env) (st : Z) (txt : string) : string :=
  "HTTP " ++ number_to_string env (Number.Int st) ++ ": " ++ txt.

(** The success envelope, with its cache-indicator header. *)
Definition success_envelope (d : json) (hit : bool) (endpoint stamp : string) : response :=
  {| status := 200;
     headers := (corsHeaders ++ [("X-Cache", if hit then "HIT" else "MISS")])%list;
     body := Some (JObj [ ("success", JBool true);
                          ("data", d);
                          ("cached", JBool hit);
                          ("endpoint", JStr endpoint);
                          ("timestamp", JStr stamp) ]) |}.

(** The line [logRequest] prints. *)
Definition request_line (env : Env) (now : Z) (method path : string) (st duration : Z) : string :=
  "[" ++ to_iso_string env now ++ "] " ++ method ++ " " ++ path
  ++ " - " ++ number_to_string env (Number.Int st)
  ++ " (" ++ number_to_string env (Number.Int duration) ++ "ms)".

(** The state a request is left in once its response is built and logged:
    one clock reading for the duration, one inside [logRequest]. *)
Definition log_request (env : Env) (method path : string) (st start : Z) (s : State) : State :=
  logged (ConsoleLog (request_line env (clock env (S (ticks s))) method path st
                        (clock env (ticks s) - start)))
         (tick (tick s)).

(** ** Two sample worlds, for closed instances of the theorems *)

(** One clock reading per minute, an upstream that answers every request
    with comic 3000, and [Math.random] stuck at one half. *)
Definition online : Env :=
  {| clock := fun i => 60000 * Z.of_nat i;
     upstream := fun _ _ =>
       HttpResponse 200 "OK"
         (BodyJson (JObj [ ("num", JNum 3000); ("title", JStr "Comic") ]));
     random := fun _ => 2 ^ 1073;
     to_number_object := fun _ => Number.NaN;
     to_shortest := fun _ => "1e+21";
     to_iso_string := fun _ => "2024-01-01T00:00:00.000Z" |}.

(** The same world with the upstream out of service. *)
Definition unavailable : Env :=
  {| clock := clock online;
     upstream := fun _ _ =>
       HttpResponse 503 "Service Unavailable" (BodyInvalid "Unexpected token <");
     random := random online;
     to_number_object := to_number_object online;
     to_shortest := to_shortest online;
     to_iso_string := to_iso_string online |}.

(** A store holding one entry for [key], inserted at time [0]. *)
Definition one_entry (key : string) (v : json) (now : nat) : State :=
  {| cache := [(key, {| data := v; timestamp := 0 |})];
     ticks := now; requests := []; draws := 0; console := [] |}.

(** ** The [switch] as a table

    The cases of the [switch] that [break] differ only in the operation they
    await and in the endpoint label; what follows the [switch] is common to
    them.  [operation] names the two, [None] standing for the [default]
    case, which returns on its own. *)
Section Operations.
Variable env : Env.

(** The cases that await a caching fetch spread its [{ data, cached }]. *)
Definition fetched (m : M result) : M (json * bool) :=
  r <- m ;; ret (unpack r).

(** The case [/cache/stats]. *)
Definition cacheStats : M (json * bool) :=
  m <- read_cache ;;
  ret (JObj [ ("size", JNum (Z.of_nat (JsMap.size m)));
              ("keys", JArr (map JStr (JsMap.keys m)));
              ("maxAge", JNum CACHE_DURATION) ],
       false).

(** The case [/cache/clear]. *)
Definition cacheClear : M (json * bool) :=
  (update_cache JsMap.clear ;;;
   m <- read_cache ;;
   ret (JObj [ ("message", JStr "Cache cleared");
               ("previousSize", JNum (Z.of_nat (JsMap.size m))) ],
        false)).

Definition operation (path : string) : option (M (json * bool) * string) :=
  if (path =? "/")%string || (path =? "/latest")%string then
    Some (fetched (getLatestXkcd env), "latest")
  else if (path =? "/random")%string then
    Some (fetched (getRandomXkcd env), "random")
  else if numeric_path path then
    let num := parseInt (substring1 path) in
    Some (fetched (getXkcdByNumber env num), "comic-" ++ number_to_string env num)
  else if (path =? "/cache/stats")%string then Some (cacheStats, path)
  else if (path =? "/cache/clear")%string then Some (cacheClear, path)
  else None.

End Operations.

(** The key a store may hold: [latest], or [comic-] followed by a number. *)
Definition cache_key (env : Env) (k : string) : Prop :=
  k = "latest" \/ exists num, k = ("comic-" ++ number_to_string env num)%string.

(** The statuses the handler answers with. *)
Definition handler_status (st : Z) : Prop :=
  st = 200 \/ st = 204 \/ st = 404 \/ st = 500.

(** The addresses the program asks: the documents of xkcd.com. *)
Definition xkcd_url (u : string) : Prop :=
  exists mid, u = ("https://xkcd.com/" ++ mid ++ "info.0.json")%string.

(** What a step of the program may do to the world: send at most [n]
    requests, all to xkcd.com, add at most one entry to the store for each,
    and print nothing. *)
Definition sends (n : nat) (s s' : State) : Prop :=
  exists l,
    requests s' = (requests s ++ l)%list /\
    (List.length l <= n)%nat /\
    Forall xkcd_url l /\
    (JsMap.size (cache s') <= JsMap.size (cache s) + List.length l)%nat /\
    console s' = console s.

(** The invariant of the store: a map, whose keys are cache keys. *)
Definition store_ok (env : Env) (m : list (string * entry)) : Prop :=
  JsMap.wf m /\ Forall (cache_key env) (JsMap.keys m).

(** A document without a [num] property: anything but [null] that is not an
    object with that key. *)
Definition has_no_num (v : json) : Prop :=
  match v with
  | JNull => False
  | JObj fields => lookup_field "num" fields = None
  | _ => True
  end.

(** * Properties *)

(** ** Rounding to 53 bits *)
Section Rounding.
Import Number.

Lemma round53_small x : x < 2 ^ 53 -> round53 x = x.
Proof.
  intros H. unfold round53, precision.
  destruct (Z.ltb_spec x (2 ^ 53)); [reflexivity | lia].
Qed.

(** The shape of a rounding above [2^53]: with [T] the spacing of the
    doubles around [x], [x] is [q * T + r] and rounds to [q * T] or to
    [(q + 1) * T], the latter only from the upper half. *)
Lemma round53_large x :
  2 ^ 53 <= x ->
  exists s q r : Z,
    s = Z.log2 x - 52 /\ 1 <= s /\
    x = q * 2 ^ s + r /\ 0 <= r < 2 ^ s /\
    2 ^ 52 <= q < 2 ^ 53 /\
    2 ^ s = 2 * 2 ^ (s - 1) /\ 0 < 2 ^ (s - 1) /\
    (round53 x = q * 2 ^ s \/
     (round53 x = (q + 1) * 2 ^ s /\ 2 ^ (s - 1) <= r)).
Proof.
  intros Hx.
  assert (Hpos : 0 < x) by (pose proof (Z.pow_pos_nonneg 2 53); lia).
  destruct (Z.log2_spec x Hpos) as [Hlo Hhi].
  assert (Hlog : 53 <= Z.log2 x) by (apply Z.log2_le_pow2; lia).
  set (s := Z.log2 x - 52) in *.
  assert (Hs : 1 <= s) by (subst s; lia).
  assert (HT : 0 < 2 ^ s) by (apply Z.pow_pos_nonneg; lia).
  assert (Hh : 0 < 2 ^ (s - 1)) by (apply Z.pow_pos_nonneg; lia).
  assert (Hdouble : 2 ^ s = 2 * 2 ^ (s - 1)).
  { replace s with (Z.succ (s - 1)) at 1 by lia. rewrite Z.pow_succ_r; lia. }
  assert (Hlo' : 2 ^ Z.log2 x = 2 ^ 52 * 2 ^ s).
  { rewrite <- Z.pow_add_r by lia. f_equal. subst s. lia. }
  assert (Hhi' : 2 ^ Z.succ (Z.log2 x) = 2 ^ 53 * 2 ^ s).
  { rewrite <- Z.pow_add_r by lia. f_equal. subst s. lia. }
  exists s, (x / 2 ^ s), (x mod 2 ^ s).
  pose proof (Z.div_mod x (2 ^ s) ltac:(lia)) as Hdm.
  pose proof (Z.mod_pos_bound x (2 ^ s) HT) as Hr.
  assert (Hq : 2 ^ 52 <= x / 2 ^ s < 2 ^ 53).
  { split.
    - apply Z.div_le_lower_bound; lia.
    - apply Z.div_lt_upper_bound; lia. }
  repeat split; try lia.
  unfold round53, precision.
  destruct (Z.ltb_spec x (2 ^ 53)); [lia |].
  change (53 - 1) with 52. fold s.
  destruct ((x mod 2 ^ s <? 2 ^ (s - 1))
            || ((x mod 2 ^ s =? 2 ^ (s - 1)) && Z.even (x / 2 ^ s))) eqn:E.
  - now left.
  - right. split; [reflexivity |].
    apply orb_false_iff in E. destruct E as [E _].
    apply Z.ltb_ge in E. exact E.
Qed.

Lemma round53_nonneg x : 0 <= x -> 0 <= round53 x.
Proof.
  intros H. destruct (Z_lt_le_dec x (2 ^ 53)) as [Hs | Hl].
  - rewrite round53_small; assumption.
  - destruct (round53_large x Hl)
      as (s & q & r & _ & _ & _ & _ & Hq & Hd & Hh & [-> | [-> _]]);
      assert (1 <= 2 ^ s) by lia; nia.
Qed.

Lemma round53_pos x : 1 <= x -> 1 <= round53 x.
Proof.
  intros H. destruct (Z_lt_le_dec x (2 ^ 53)) as [Hs | Hl].
  - rewrite round53_small; assumption.
  - destruct (round53_large x Hl)
      as (s & q & r & _ & _ & _ & _ & Hq & Hd & Hh & [-> | [-> _]]);
      assert (1 <= 2 ^ s) by lia; nia.
Qed.

(** Rounding up adds at most a relative [2^-53]. *)
Lemma round53_relative x :
  0 <= x -> round53 x * 2 ^ 53 <= x * (2 ^ 53 + 1).
Proof.
  intros H. destruct (Z_lt_le_dec x (2 ^ 53)) as [Hs | Hl].
  - rewrite round53_small by assumption. nia.
  - destruct (round53_large x Hl)
      as (s & q & r & _ & _ & Hx & Hr & Hq & Hd & Hh & [-> | [-> Hup]]).
    + nia.
    + set (h := 2 ^ (s - 1)) in *. rewrite Hd in *.
      change (2 ^ 53) with (2 * 2 ^ 52) in *.
      set (P := 2 ^ 52) in *.
      assert (h * P <= h * q) by nia.
      nia.
Qed.

(** A representable value above [2^53] is a multiple of its own spacing. *)
Lemma round53_fixed_multiple z :
  2 ^ 53 <= z -> round53 z = z -> exists k, z = k * 2 ^ (Z.log2 z - 52) /\ k < 2 ^ 53.
Proof.
  intros Hz Hfix.
  destruct (round53_large z Hz)
    as (s & q & r & -> & _ & Hx & Hr & Hq & Hd & Hh & [E | [E Hup]]);
    rewrite Hfix in E.
  - exists q. split; [exact E | lia].
  - exfalso. nia.
Qed.

(** Rounding never jumps over a representable value. *)
Lemma round53_le_fixed x z :
  0 <= x <= z -> round53 z = z -> round53 x <= z.
Proof.
  intros [H0 Hxz] Hfix. destruct (Z_lt_le_dec x (2 ^ 53)) as [Hs | Hl].
  - rewrite round53_small; assumption.
  - destruct (round53_large x Hl)
      as (s & q & r & Hs & Hs1 & Hx & Hr & Hq & Hd & Hh & [-> | [-> Hup]]).
    + nia.
    + destruct (round53_fixed_multiple z ltac:(lia) Hfix) as (k & Hk & _).
      assert (Hmono : Z.log2 x <= Z.log2 z) by (apply Z.log2_le_mono; lia).
      set (d := Z.log2 z - 52 - s).
      assert (Hd0 : 0 <= d) by (subst d s; lia).
      assert (Hsplit : 2 ^ (Z.log2 z - 52) = 2 ^ d * 2 ^ s).
      { rewrite <- Z.pow_add_r by lia. f_equal. subst d. lia. }
      rewrite Hsplit in Hk.
      assert (HT : 0 < 2 ^ s) by lia.
      assert (Hgt : q < k * 2 ^ d) by nia.
      nia.
Qed.

(** The largest double below one is [1 - 2^-53]. *)
Lemma draw_below_one a :
  is_random_draw a -> a * 2 ^ 53 <= one_units * (2 ^ 53 - 1).
Proof.
  intros [[H0 H1] Hfix]. unfold one_units in *.
  destruct (Z_lt_le_dec a (2 ^ 53)) as [Hs | Hl].
  - assert (2 ^ 53 * 2 ^ 53 <= 2 ^ 1074 * (2 ^ 53 - 1)) by (vm_compute; discriminate).
    nia.
  - destruct (round53_fixed_multiple a Hl Hfix) as (k & Hk & Hk53).
    assert (Hlog : Z.log2 a < 1074) by (apply Z.log2_lt_pow2; lia).
    assert (Hpow : 2 ^ (Z.log2 a - 52) <= 2 ^ 1021)
      by (apply Z.pow_le_mono_r; lia).
    assert (HT : 0 < 2 ^ (Z.log2 a - 52)).
    { apply Z.pow_pos_nonneg; [lia |].
      assert (53 <= Z.log2 a) by (apply Z.log2_le_pow2; lia). lia. }
    replace (2 ^ 1074) with (2 ^ 1021 * 2 ^ 53)
      by (rewrite <- Z.pow_add_r by lia; reflexivity).
    set (T := 2 ^ (Z.log2 a - 52)) in *. set (B := 2 ^ 1021) in *.
    set (P := 2 ^ 53) in *.
    assert (0 < P) by (subst P; reflexivity).
    assert (a <= (P - 1) * B) by nia.
    nia.
Qed.

(** The product of a draw with [n], once rounded, is still below [n]. *)
Lemma floor_mul_range a n :
  is_random_draw a -> 1 <= n -> 0 <= floor_mul a n < n.
Proof.
  intros Ha Hn. pose proof (draw_below_one a Ha) as Hb.
  destruct Ha as [[H0 H1] _].
  unfold floor_mul, fl.
  assert (Hx : 0 <= a * n) by nia.
  destruct (Z.ltb_spec (a * n) 0); [lia |].
  pose proof (round53_nonneg _ Hx) as Hr0.
  pose proof (round53_relative _ Hx) as Hrel.
  assert (HU : 0 < one_units) by (unfold one_units; apply Z.pow_pos_nonneg; lia).
  set (U := one_units) in *. set (y := round53 (a * n)) in *.
  set (P := 2 ^ 53) in *.
  assert (HP : 0 < P) by (subst P; reflexivity).
  assert (Hlt : y < n * U).
  { assert (y * P * P <= a * n * (P + 1) * P) by nia.
    assert (a * n * (P + 1) * P <= n * U * ((P - 1) * (P + 1))) by nia.
    assert (y * (P * P) < n * U * (P * P)) by nia.
    nia. }
  split.
  - apply Z.div_pos; lia.
  - apply Z.div_lt_upper_bound; lia.
Qed.

(** A value of at most 53 bits, shifted, is a double. *)
Lemma round53_shifted m e :
  0 <= m < 2 ^ 53 -> 0 <= e -> round53 (m * 2 ^ e) = m * 2 ^ e.
Proof.
  intros [Hm0 Hm] He.
  destruct (Z_lt_le_dec (m * 2 ^ e) (2 ^ 53)) as [Hs | Hl].
  - now apply round53_small.
  - assert (HE : 0 < 2 ^ e) by (apply Z.pow_pos_nonneg; lia).
    assert (Hmpos : 0 < m) by nia.
    destruct (round53_large _ Hl)
      as (s & q & r & Hs & Hs1 & Hx & Hr & Hq & Hd & Hh & Hround).
    rewrite Z.log2_mul_pow2 in Hs by lia.
    assert (Hlm : Z.log2 m < 53) by (apply Z.log2_lt_pow2; lia).
    assert (Hse : s <= e) by lia.
    assert (Hsplit : 2 ^ e = 2 ^ (e - s) * 2 ^ s).
    { rewrite <- Z.pow_add_r by lia. f_equal. lia. }
    assert (HT : 0 < 2 ^ s) by lia.
    assert (Hr0 : r = 0).
    { rewrite Hsplit in Hx.
      set (T := 2 ^ s) in *. set (c := m * 2 ^ (e - s)) in *.
      assert (Hc : c * T = q * T + r) by (subst c; lia).
      assert (c = q) by nia. nia. }
    destruct Hround as [-> | [_ Hup]]; lia.
Qed.

(** Rounding never falls below a double that the value has reached. *)
Lemma round53_ge_fixed x z :
  0 <= z <= x -> round53 z = z -> z <= round53 x.
Proof.
  intros [Hz Hzx] Hfix. destruct (Z_lt_le_dec x (2 ^ 53)) as [Hs | Hl].
  - rewrite round53_small; assumption.
  - destruct (round53_large x Hl)
      as (s & q & r & Hs & Hs1 & Hx & Hr & Hq & Hd & Hh & Hround).
    assert (HT : 2 <= 2 ^ s) by lia.
    assert (Hdown : z <= q * 2 ^ s).
    { destruct (Z_lt_le_dec z (2 ^ 53)) as [Hzs | Hzl]; [nia |].
      destruct (round53_fixed_multiple z Hzl Hfix) as (k & Hk & _).
      assert (Hmono : Z.log2 z <= Z.log2 x) by (apply Z.log2_le_mono; lia).
      assert (Hxpos : 0 < x) by lia.
      destruct (Z.log2_spec x Hxpos) as [Hxlo _].
      assert (Hsplit : 2 ^ Z.log2 x = 2 ^ 52 * 2 ^ s).
      { rewrite <- Z.pow_add_r by lia. f_equal. lia. }
      destruct (Z_lt_le_dec (Z.log2 z) (Z.log2 x)) as [Hlt | Hge].
      - assert (Hzhi : z < 2 ^ Z.succ (Z.log2 z)) by (apply Z.log2_spec; lia).
        assert (2 ^ Z.succ (Z.log2 z) <= 2 ^ Z.log2 x)
          by (apply Z.pow_le_mono_r; lia).
        nia.
      - replace (Z.log2 z - 52) with s in Hk by lia.
        set (T := 2 ^ s) in *. assert (k <= q) by nia. nia. }
    destruct Hround as [-> | [-> _]]; lia.
Qed.

(** No rounding gives an odd number above [2^53]. *)
Lemma round53_even x : 2 ^ 53 <= round53 x -> Z.even (round53 x) = true.
Proof.
  intros Hbig. destruct (Z_lt_le_dec x (2 ^ 53)) as [Hs | Hl].
  - rewrite round53_small in * by assumption. lia.
  - destruct (round53_large x Hl)
      as (s & q & r & Hs & Hs1 & Hx & Hr & Hq & Hd & Hh & Hround).
    destruct Hround as [-> | [-> _]]; rewrite Hd;
      rewrite Z.mul_assoc, (Z.mul_comm _ 2), <- Z.mul_assoc;
      apply Z.even_mul; now left.
Qed.

Lemma round53_safe n : 0 <= n <= 2 ^ 53 -> round53 n = n.
Proof.
  intros [H0 H53]. destruct (Z_lt_le_dec n (2 ^ 53)) as [Hlt | Hge].
  - now apply round53_small.
  - replace n with (2 ^ 53) by lia. reflexivity.
Qed.

(** Up to [2^53] the one rounding of the product moves the floor by at most
    one, upwards. *)
Lemma floor_mul_exact a n :
  is_random_draw a -> 1 <= n <= 2 ^ 53 ->
  a * n / one_units <= floor_mul a n <= a * n / one_units + 1.
Proof.
  intros Ha [Hn Hn53]. pose proof (draw_below_one a Ha) as Hb.
  destruct Ha as [[H0 H1] _]. unfold floor_mul, fl.
  assert (Hx : 0 <= a * n) by nia.
  destruct (Z.ltb_spec (a * n) 0); [lia |].
  assert (HU : 0 < one_units) by (unfold one_units; apply Z.pow_pos_nonneg; lia).
  assert (HUe : one_units = 2 ^ 1074) by reflexivity.
  set (U := one_units) in *. set (x := a * n) in *.
  pose proof (Z.div_mod x U ltac:(lia)) as Hdm.
  pose proof (Z.mod_pos_bound x U HU) as Hmod.
  set (e := x / U) in *.
  assert (Hxn : x < n * U) by (subst x; nia).
  assert (He : 0 <= e < 2 ^ 53).
  { split; [apply Z.div_pos; lia |].
    assert (e < n); [apply Z.div_lt_upper_bound; lia | lia]. }
  split.
  - apply Z.div_le_lower_bound; [lia |]. rewrite Z.mul_comm.
    apply round53_ge_fixed; [nia |]. rewrite HUe. apply round53_shifted; lia.
  - pose proof (round53_relative x Hx) as Hrel.
    set (y := round53 x) in *. set (P := 2 ^ 53) in *.
    assert (HP : 0 < P) by (subst P; reflexivity).
    assert (Hy : y < x + U) by nia.
    assert (y / U < e + 2); [apply Z.div_lt_upper_bound; nia | lia].
Qed.

Lemma succ_safe f : 0 <= f < 2 ^ 53 -> succ f = f + 1.
Proof.
  intros Hf. unfold succ, fl. destruct (Z.ltb_spec (f + 1) 0); [lia |].
  apply round53_safe. lia.
Qed.

(** Up to [2^52] every number of the range is the image of some draw. *)
Lemma every_number_is_drawn n k :
  1 <= k <= n -> n <= 2 ^ 52 ->
  exists a, is_random_draw a /\ succ (floor_mul a n) = k.
Proof.
  intros [Hk Hkn] Hn.
  set (P := 2 ^ 53). set (B := 2 ^ 1021).
  assert (HP : P = 2 * 2 ^ 52) by reflexivity.
  assert (HB : 0 < B) by (apply Z.pow_pos_nonneg; lia).
  assert (HU : one_units = P * B)
    by (unfold one_units, P, B; rewrite <- Z.pow_add_r by lia; reflexivity).
  set (m := ((k - 1) * P + (n - 1)) / n).
  pose proof (Z.div_mod ((k - 1) * P + (n - 1)) n ltac:(lia)) as Hdm.
  pose proof (Z.mod_pos_bound ((k - 1) * P + (n - 1)) n ltac:(lia)) as Hmod.
  fold m in Hdm. set (rem := ((k - 1) * P + (n - 1)) mod n) in *.
  assert (Hlo : (k - 1) * P <= m * n) by lia.
  assert (Hhi : m * n <= (k - 1) * P + (n - 1)) by lia.
  assert (Hm : 0 <= m < P).
  { split; [apply Z.div_pos; nia |].
    apply Z.div_lt_upper_bound; [lia |]. nia. }
  assert (Hdraw : is_random_draw (m * B)).
  { split; [rewrite HU; nia |]. apply round53_shifted; [exact Hm | lia]. }
  exists (m * B). split; [exact Hdraw |].
  assert (Hf : floor_mul (m * B) n = k - 1).
  { unfold floor_mul, fl.
    assert (Hx : 0 <= m * B * n) by nia.
    destruct (Z.ltb_spec (m * B * n) 0); [lia |].
    pose proof (round53_relative _ Hx) as Hrel. fold P in Hrel.
    assert (Hge : (k - 1) * one_units <= round53 (m * B * n)).
    { apply round53_ge_fixed; [rewrite HU; nia |].
      unfold one_units. apply round53_shifted; [fold P; lia | lia]. }
    set (y := round53 (m * B * n)) in *. rewrite HU in *.
    assert (Hlt : y < k * (P * B)).
    { assert (y * P <= ((k - 1) * P + (n - 1)) * B * (P + 1)) by nia.
      assert (((k - 1) * P + (n - 1)) * (P + 1) < k * P * P) by nia.
      assert (y * P < k * P * P * B) by nia.
      nia. }
    symmetry. apply Z.div_unique with (r := y - (k - 1) * (P * B)); [lia | ring]. }
  rewrite Hf. replace k with (k - 1 + 1) at 2 by lia.
  apply succ_safe. fold P. lia.
Qed.

(** A result is a double: never an odd number above [2^53]. *)
Lemma succ_not_odd x : succ x <> 2 ^ 53 + 1.
Proof.
  unfold succ, fl. destruct (Z.ltb_spec (x + 1) 0) as [Hneg | Hpos].
  - assert (0 <= round53 (- (x + 1))) by (apply round53_nonneg; lia). lia.
  - intros E. assert (Hbig : 2 ^ 53 <= round53 (x + 1)) by lia.
    apply round53_even in Hbig. rewrite E in Hbig. discriminate.
Qed.

End Rounding.

(** ** Facts about the cache map *)
Section MapFacts.
Context {V : Type}.
Implicit Types (m : list (string * V)) (k : string) (v : V).

Lemma get_set_same k v m : JsMap.get k (JsMap.set k v m) = Some v.
Proof.
  induction m as [| [k' v'] m IH]; simpl.
  - now rewrite String.eqb_refl.
  - destruct (String.eqb_spec k' k) as [-> | Hne]; simpl.
    + now rewrite String.eqb_refl.
    + destruct (String.eqb_spec k' k); [contradiction | exact IH].
Qed.

Lemma get_set_other k k' v m :
  k' <> k -> JsMap.get k' (JsMap.set k v m) = JsMap.get k' m.
Proof.
  intros Hne. induction m as [| [k0 v0] m IH]; simpl.
  - destruct (String.eqb_spec k k'); [congruence | reflexivity].
  - destruct (String.eqb_spec k0 k) as [-> | H0]; simpl.
    + destruct (String.eqb_spec k k'); [congruence | reflexivity].
    + now rewrite IH.
Qed.

Lemma get_delete_same k m : JsMap.get k (JsMap.delete k m) = None.
Proof.
  induction m as [| [k' v'] m IH]; simpl; [reflexivity |].
  destruct (String.eqb_spec k' k) as [-> | Hne]; simpl; [exact IH |].
  destruct (String.eqb_spec k' k); [contradiction | exact IH].
Qed.

Lemma get_delete_other k k' m :
  k' <> k -> JsMap.get k' (JsMap.delete k m) = JsMap.get k' m.
Proof.
  intros Hne. induction m as [| [k0 v0] m IH]; simpl; [reflexivity |].
  destruct (String.eqb_spec k0 k) as [-> | H0]; simpl.
  - destruct (String.eqb_spec k k'); [congruence | exact IH].
  - now rewrite IH.
Qed.

Lemma get_none_keys k m : JsMap.get k m = None <-> ~ In k (JsMap.keys m).
Proof.
  induction m as [| [k' v'] m IH]; simpl; [tauto |].
  destruct (String.eqb_spec k' k) as [-> | Hne].
  - split; [discriminate | tauto].
  - rewrite IH. tauto.
Qed.

Lemma delete_absent k m : JsMap.get k m = None -> JsMap.delete k m = m.
Proof.
  induction m as [| [k' v'] m IH]; simpl; [reflexivity |].
  destruct (String.eqb_spec k' k); [discriminate |].
  intros H. now rewrite IH.
Qed.

Lemma keys_delete k k' m :
  In k' (JsMap.keys (JsMap.delete k m)) -> In k' (JsMap.keys m).
Proof.
  induction m as [| [k0 v0] m IH]; simpl; [tauto |].
  destruct (String.eqb_spec k0 k); simpl; tauto.
Qed.

Lemma keys_set k k' v m :
  In k' (JsMap.keys (JsMap.set k v m)) -> k' = k \/ In k' (JsMap.keys m).
Proof.
  induction m as [| [k0 v0] m IH]; simpl.
  - intros [-> | []]. now left.
  - destruct (String.eqb_spec k0 k) as [-> | Hne]; simpl.
    + intros [<- | H]; tauto.
    + intros [<- | H]; [tauto | destruct (IH H); tauto].
Qed.

Lemma wf_delete k m : JsMap.wf m -> JsMap.wf (JsMap.delete k m).
Proof.
  unfold JsMap.wf. induction m as [| [k' v'] m IH]; simpl; [trivial |].
  intros H. inversion H as [| ? ? Hnotin Hrest]; subst.
  destruct (String.eqb_spec k' k); simpl; [now apply IH |].
  constructor; [| now apply IH].
  intros Hin. apply Hnotin. eapply keys_delete; eassumption.
Qed.

Lemma wf_set k v m : JsMap.wf m -> JsMap.wf (JsMap.set k v m).
Proof.
  unfold JsMap.wf. induction m as [| [k' v'] m IH]; simpl.
  - intros _. constructor; [simpl; tauto | constructor].
  - intros H. inversion H as [| ? ? Hnotin Hrest]; subst.
    destruct (String.eqb_spec k' k) as [-> | Hne]; simpl.
    + constructor; assumption.
    + constructor; [| now apply IH].
      intros Hin. destruct (keys_set _ _ _ _ Hin); [congruence | contradiction].
Qed.

(** Deleting a present key of a well-formed map removes exactly one entry. *)
Lemma size_delete k v m :
  JsMap.wf m -> JsMap.get k m = Some v ->
  S (JsMap.size (JsMap.delete k m)) = JsMap.size m.
Proof.
  unfold JsMap.wf, JsMap.size. induction m as [| [k' v'] m IH]; simpl; [discriminate |].
  intros H Hget. inversion H as [| ? ? Hnotin Hrest]; subst.
  destruct (String.eqb_spec k' k) as [-> | Hne]; simpl.
  - rewrite delete_absent; [reflexivity |]. now apply get_none_keys.
  - f_equal. now apply IH.
Qed.

End MapFacts.

(** ** Running the monad *)

Lemma run_bind {A B} (m : M A) (f : A -> M B) s a s' :
  m s = (Return a, s') -> bind m f s = f a s'.
Proof. intros H. unfold bind. now rewrite H. Qed.

Lemma run_bind_throw {A B} (m : M A) (f : A -> M B) s e s' :
  m s = (Throw e, s') -> bind m f s = (Throw e, s').
Proof. intros H. unfold bind. now rewrite H. Qed.

Lemma run_catch {A} (m : M A) h s e s' :
  m s = (Throw e, s') -> try_catch m h s = h e s'.
Proof. intros H. unfold try_catch. now rewrite H. Qed.

Lemma run_no_catch {A} (m : M A) h s a s' :
  m s = (Return a, s') -> try_catch m h s = (Return a, s').
Proof. intros H. unfold try_catch. now rewrite H. Qed.

Ltac run :=
  unfold bind, ret, throw, Date_now, Math_random, console_write, read_cache,
    update_cache; simpl.

(** ** The cache helpers *)

Lemma getCached_absent env key s :
  JsMap.get key (cache s) = None -> getCached env key s = (Return JNull, s).
Proof. intros H. unfold getCached. run. now rewrite H. Qed.

Lemma getCached_fresh env key s e :
  JsMap.get key (cache s) = Some e ->
  clock env (ticks s) - timestamp e < CACHE_DURATION ->
  getCached env key s = (Return (data e), tick s).
Proof.
  intros H Hage. unfold getCached. run. rewrite H. run.
  destruct (Z.ltb_spec (clock env (ticks s) - timestamp e) CACHE_DURATION);
    [reflexivity | lia].
Qed.

Lemma getCached_stale env key s e :
  JsMap.get key (cache s) = Some e ->
  CACHE_DURATION <= clock env (ticks s) - timestamp e ->
  getCached env key s = (Return JNull, with_cache (JsMap.delete key) (tick s)).
Proof.
  intros H Hage. unfold getCached. run. rewrite H. run.
  destruct (Z.ltb_spec (clock env (ticks s) - timestamp e) CACHE_DURATION);
    [lia | reflexivity].
Qed.

(** A lookup always returns, touches no key but its own, and leaves the
    requests and the draws alone. *)
Lemma getCached_total env key s :
  exists c s',
    getCached env key s = (Return c, s') /\
    (cache s' = cache s \/
     cache s' = JsMap.delete key (cache s) /\
     exists e, JsMap.get key (cache s) = Some e /\
               CACHE_DURATION <= clock env (ticks s) - timestamp e) /\
    requests s' = requests s /\ draws s' = draws s.
Proof.
  destruct (JsMap.get key (cache s)) as [e |] eqn:Hget.
  - destruct (Z_lt_le_dec (clock env (ticks s) - timestamp e) CACHE_DURATION).
    + exists (data e), (tick s). rewrite (getCached_fresh _ _ _ _ Hget) by assumption.
      simpl. tauto.
    + exists JNull, (with_cache (JsMap.delete key) (tick s)).
      rewrite (getCached_stale _ _ _ _ Hget) by assumption.
      simpl. repeat split; try reflexivity. right. split; [reflexivity |].
      now exists e.
  - exists JNull, s. rewrite getCached_absent by assumption. tauto.
Qed.

Lemma setCache_run env key d s :
  setCache env key d s =
  (Return tt,
   with_cache (JsMap.set key {| data := d; timestamp := clock env (ticks s) |}) (tick s)).
Proof. reflexivity. Qed.

(** ** The caching fetch *)

Section FetchWithCache.
Variable env : Env.
Variables (url key : string) (s s1 : State) (c : json).
Hypothesis Hlookup : getCached env key s = (Return c, s1).

Lemma fetchWithCache_hit :
  truthy c = true ->
  fetchWithCache env url key s =
  (Return {| result_data := c; result_cached := true |}, s1).
Proof.
  intros Ht. unfold fetchWithCache.
  rewrite (run_bind _ _ _ _ _ Hlookup). now rewrite Ht.
Qed.

Lemma fetchWithCache_network_failure m :
  truthy c = false ->
  upstream env url (List.length (requests s1)) = NetworkFailure m ->
  fetchWithCache env url key s = (Throw (Error m), sent url s1).
Proof.
  intros Ht Hup. unfold fetchWithCache.
  rewrite (run_bind _ _ _ _ _ Hlookup). rewrite Ht.
  unfold bind, fetch. now rewrite Hup.
Qed.

Lemma fetchWithCache_http_error st txt b :
  truthy c = false ->
  upstream env url (List.length (requests s1)) = HttpResponse st txt b ->
  ok st = false ->
  fetchWithCache env url key s =
  (Throw (Error (http_error_message env st txt)), sent url s1).
Proof.
  intros Ht Hup Hok. unfold fetchWithCache.
  rewrite (run_bind _ _ _ _ _ Hlookup). rewrite Ht.
  unfold bind, fetch. rewrite Hup. now rewrite Hok.
Qed.

Lemma fetchWithCache_parse_error st txt m :
  truthy c = false ->
  upstream env url (List.length (requests s1)) = HttpResponse st txt (BodyInvalid m) ->
  ok st = true ->
  fetchWithCache env url key s = (Throw (Error m), sent url s1).
Proof.
  intros Ht Hup Hok. unfold fetchWithCache.
  rewrite (run_bind _ _ _ _ _ Hlookup). rewrite Ht.
  unfold bind, fetch. rewrite Hup. now rewrite Hok.
Qed.

Lemma fetchWithCache_miss st txt d :
  truthy c = false ->
  upstream env url (List.length (requests s1)) = HttpResponse st txt (BodyJson d) ->
  ok st = true ->
  fetchWithCache env url key s =
  (Return {| result_data := d; result_cached := false |},
   with_cache (JsMap.set key {| data := d; timestamp := clock env (ticks s1) |})
     (tick (sent url s1))).
Proof.
  intros Ht Hup Hok. unfold fetchWithCache.
  rewrite (run_bind _ _ _ _ _ Hlookup). rewrite Ht.
  unfold bind, fetch. rewrite Hup. now rewrite Hok.
Qed.

(** Whatever the upstream does, a run that throws has sent its request and
    left the store as the lookup left it. *)
Lemma fetchWithCache_throw e s' :
  fetchWithCache env url key s = (Throw e, s') -> s' = sent url s1.
Proof.
  destruct (truthy c) eqn:Ht.
  - rewrite fetchWithCache_hit by assumption. discriminate.
  - destruct (upstream env url (List.length (requests s1))) as [m | st txt b] eqn:Hup.
    + rewrite (fetchWithCache_network_failure m) by assumption. congruence.
    + destruct (ok st) eqn:Hok.
      * destruct b as [d | m].
        -- rewrite (fetchWithCache_miss st txt d) by assumption. discriminate.
        -- rewrite (fetchWithCache_parse_error st txt m) by assumption. congruence.
      * rewrite (fetchWithCache_http_error st txt b) by assumption. congruence.
Qed.

(** A run that returns either served the cached value or sent one request. *)
Lemma fetchWithCache_return r s' :
  fetchWithCache env url key s = (Return r, s') ->
  (r = {| result_data := c; result_cached := true |} /\ truthy c = true /\ s' = s1) \/
  (result_cached r = false /\ truthy c = false /\
   s' = with_cache
          (JsMap.set key {| data := result_data r; timestamp := clock env (ticks s1) |})
          (tick (sent url s1))).
Proof.
  destruct (truthy c) eqn:Ht.
  - rewrite fetchWithCache_hit by assumption. intros [= <- <-]. now left.
  - destruct (upstream env url (List.length (requests s1))) as [m | st txt b] eqn:Hup.
    + rewrite (fetchWithCache_network_failure m) by assumption. discriminate.
    + destruct (ok st) eqn:Hok.
      * destruct b as [d | m].
        -- rewrite (fetchWithCache_miss st txt d) by assumption.
           intros [= <- <-]. right. simpl. tauto.
        -- rewrite (fetchWithCache_parse_error st txt m) by assumption. discriminate.
      * rewrite (fetchWithCache_http_error st txt b) by assumption. discriminate.
Qed.

End FetchWithCache.

(** ** The handler *)

Lemma logRequest_run env method path st duration s :
  logRequest env method path st duration s =
  (Return tt,
   logged (ConsoleLog (request_line env (clock env (ticks s)) method path st duration))
          (tick s)).
Proof. reflexivity. Qed.

Lemma respond_run env method path start res endpoint s :
  respond env method path start res endpoint s =
  (Return (success_envelope (fst res) (snd res) endpoint
             (to_iso_string env (clock env (ticks s)))),
   log_request env method path 200 start (tick s)).
Proof. reflexivity. Qed.

Lemma recover_run env method path start e s :
  recover env method path start e s =
  (Return (error_envelope (or_else (message e) "Internal Server Error")),
   log_request env method path 500 start (logged (ConsoleError "Error:" e) s)).
Proof. reflexivity. Qed.

Lemma log_request_cache env method path st start s :
  cache (log_request env method path st start s) = cache s.
Proof. reflexivity. Qed.

Lemma log_request_requests env method path st start s :
  requests (log_request env method path st start s) = requests s.
Proof. reflexivity. Qed.

Lemma not_options method :
  method <> "OPTIONS" -> (method =? "OPTIONS")%string = false.
Proof. intros H. now apply String.eqb_neq. Qed.

Lemma handler_preflight env path s :
  handler env "OPTIONS" path s =
  (Return {| status := 204; headers := corsHeaders; body := None |},
   log_request env "OPTIONS" path 204 (clock env (ticks s)) (tick s)).
Proof. reflexivity. Qed.

Lemma handler_run env method path s :
  method <> "OPTIONS" ->
  handler env method path s =
  try_catch (dispatch env method path (clock env (ticks s)))
            (recover env method path (clock env (ticks s))) (tick s).
Proof.
  intros H. unfold handler, bind, Date_now. now rewrite (not_options _ H).
Qed.

(** Every failure of the [try] block is caught and answered with a 500. *)
Lemma handler_catches env method path s e s1 :
  method <> "OPTIONS" ->
  dispatch env method path (clock env (ticks s)) (tick s) = (Throw e, s1) ->
  handler env method path s =
  (Return (error_envelope (or_else (message e) "Internal Server Error")),
   log_request env method path 500 (clock env (ticks s))
     (logged (ConsoleError "Error:" e) s1)).
Proof.
  intros Hm Hd. rewrite handler_run by assumption.
  rewrite (run_catch _ _ _ _ _ Hd). apply recover_run.
Qed.

(** *** Route matching *)

Lemma numeric_path_spec path : numeric_path path = true <-> comic_path path.
Proof.
  split.
  - destruct path as [| c0 [| c rest]]; simpl; try discriminate.
    + destruct c0 as [[] [] [] [] [] [] [] []]; discriminate.
    + destruct (Ascii.eqb_spec c0 "/"%char) as [-> | Hne].
      * intros H. exists (String c rest). repeat split; [discriminate | exact H].
      * destruct c0 as [[] [] [] [] [] [] [] []]; try discriminate.
        congruence.
  - intros (d & -> & Hne & Hd). destruct d as [| c rest]; [congruence |].
    exact Hd.
Qed.

Lemma digit_not_letter c rest (lit : string) :
  is_digit c = true ->
  match lit with
  | String l _ => is_digit l = false
  | EmptyString => True
  end ->
  (String "/" (String c rest) =? String "/" lit)%string = false.
Proof.
  intros Hc Hl. apply String.eqb_neq. intros [= E].
  destruct lit as [| l lit']; [discriminate |].
  injection E as -> _. congruence.
Qed.

(** A comic path takes the numeric case of the [switch]. *)
Lemma dispatch_numeric env method d start :
  d <> "" -> all_digits d = true ->
  dispatch env method (String "/" d) start =
  bind (getXkcdByNumber env (parseInt d))
       (fun r => respond env method (String "/" d) start (unpack r)
                   ("comic-" ++ number_to_string env (parseInt d))).
Proof.
  intros Hne Hd. destruct d as [| c rest]; [congruence |].
  simpl in Hd. apply andb_prop in Hd. destruct Hd as [Hc Hrest].
  unfold dispatch.
  rewrite !(digit_not_letter c rest) by (try exact Hc; simpl; auto).
  simpl. now rewrite Hc, Hrest.
Qed.

(** A path outside the known ones falls to the [default] case. *)
Lemma dispatch_default env method path start s :
  ~ known_path path ->
  dispatch env method path start s =
  (Return (not_found_envelope path), log_request env method path 404 start s).
Proof.
  intros Hk. unfold known_path in Hk. unfold dispatch.
  destruct (String.eqb_spec path "/"); [tauto |].
  destruct (String.eqb_spec path "/latest"); [tauto |].
  destruct (String.eqb_spec path "/random"); [tauto |].
  destruct (numeric_path path) eqn:Hn.
  { apply numeric_path_spec in Hn. tauto. }
  destruct (String.eqb_spec path "/cache/stats"); [tauto |].
  destruct (String.eqb_spec path "/cache/clear"); [tauto |].
  reflexivity.
Qed.

(** The random operation, once the latest comic is at hand. *)
Lemma getRandomXkcd_run env s r s1 fields :
  getLatestXkcd env s = (Return r, s1) ->
  result_data r = JObj fields ->
  getRandomXkcd env s =
  getXkcdByNumber env
    (randomNum (random env (draws s1)) (to_number env (lookup_field "num" fields)))
    (drawn s1).
Proof.
  intros Hrun Hdata. unfold getRandomXkcd.
  rewrite (run_bind _ _ _ _ _ Hrun). rewrite Hdata. reflexivity.
Qed.

Lemma append_assoc (a b c : string) : ((a ++ b) ++ c = a ++ (b ++ c))%string.
Proof. induction a as [| x a IH]; simpl; [reflexivity | now rewrite IH]. Qed.

Lemma append_empty (a : string) : (a ++ "" = a)%string.
Proof. induction a as [| x a IH]; simpl; [reflexivity | now rewrite IH]. Qed.

(** The same, end to end, on the route of the latest comic. *)
Lemma latest_route_upstream_error env method path s c s1 st txt b :
  method <> "OPTIONS" ->
  path = "/" \/ path = "/latest" ->
  getCached env "latest" (tick s) = (Return c, s1) ->
  truthy c = false ->
  upstream env "https://xkcd.com/info.0.json" (List.length (requests s1)) =
    HttpResponse st txt b ->
  ok st = false ->
  fst (handler env method path s) =
  Return (error_envelope (http_error_message env st txt)).
Proof.
  intros Hm Hp Hlookup Ht Hup Hok.
  rewrite (handler_catches env method path s
             (Error (http_error_message env st txt))
             (sent "https://xkcd.com/info.0.json" s1) Hm); [reflexivity |].
  assert (Hd : dispatch env method path (clock env (ticks s)) =
               bind (getLatestXkcd env)
                    (fun r => respond env method path (clock env (ticks s))
                                (unpack r) "latest")).
  { destruct Hp as [-> | ->]; reflexivity. }
  rewrite Hd. apply run_bind_throw.
  now apply fetchWithCache_http_error with c b.
Qed.

(** *** Reading digits *)

Lemma parse_digits_all d acc :
  all_digits d = true ->
  parse_digits acc true d = Some (acc * 10 ^ Z.of_nat (String.length d) + denote d).
Proof.
  revert acc. induction d as [| c rest IH]; intros acc Hd;
    cbn [all_digits parse_digits denote String.length] in *.
  - f_equal. change (10 ^ Z.of_nat 0) with 1. lia.
  - apply andb_prop in Hd. destruct Hd as [Hc Hrest]. rewrite Hc.
    rewrite (IH _ Hrest). f_equal.
    rewrite Nat2Z.inj_succ, Z.pow_succ_r by lia. ring.
Qed.

Lemma parseInt_digits d :
  d <> "" -> all_digits d = true -> parseInt d = Number.of_Z (denote d).
Proof.
  intros Hne Hd. destruct d as [| c rest]; [congruence |].
  simpl in Hd. apply andb_prop in Hd. destruct Hd as [Hc Hrest].
  unfold parseInt. cbn [parse_digits denote]. rewrite Hc.
  rewrite (parse_digits_all _ _ Hrest). do 2 f_equal.
Qed.

(** *** The numeric route *)

Lemma handler_numeric env method d s :
  method <> "OPTIONS" -> d <> "" -> all_digits d = true ->
  handler env method (String "/" d) s =
  match getXkcdByNumber env (parseInt d) (tick s) with
  | (Return r, s1) =>
      respond env method (String "/" d) (clock env (ticks s)) (unpack r)
        ("comic-" ++ number_to_string env (parseInt d)) s1
  | (Throw e, s1) => recover env method (String "/" d) (clock env (ticks s)) e s1
  end.
Proof.
  intros Hm Hne Hd. rewrite handler_run by assumption.
  rewrite dispatch_numeric by assumption.
  unfold try_catch, bind.
  destruct (getXkcdByNumber env (parseInt d) (tick s)) as [[r | e] s1];
    [now rewrite respond_run | reflexivity].
Qed.

Lemma handler_default env method path s :
  method <> "OPTIONS" -> ~ known_path path ->
  handler env method path s =
  (Return (not_found_envelope path),
   log_request env method path 404 (clock env (ticks s)) (tick s)).
Proof.
  intros Hm Hk. rewrite handler_run by assumption.
  apply run_no_catch. now apply dispatch_default.
Qed.

(** On a key that is not in the store, exactly one request is sent. *)
Lemma fetchWithCache_absent_requests env url key s o s' :
  JsMap.get key (cache s) = None ->
  fetchWithCache env url key s = (o, s') ->
  requests s' = (requests s ++ [url])%list.
Proof.
  intros Hget Hrun. pose proof (getCached_absent env key s Hget) as Hlookup.
  destruct o as [r | e].
  - destruct (fetchWithCache_return env url key s s JNull Hlookup r s' Hrun)
      as [(_ & Ht & _) | (_ & _ & ->)]; [discriminate | reflexivity].
  - now rewrite (fetchWithCache_throw env url key s s JNull Hlookup e s' Hrun).
Qed.

(** A caching fetch reads and writes no key but its own. *)
Lemma fetchWithCache_other_keys env url key s o s' k' :
  fetchWithCache env url key s = (o, s') ->
  k' <> key ->
  JsMap.get k' (cache s') = JsMap.get k' (cache s).
Proof.
  intros Hrun Hne.
  destruct (getCached_total env key s) as (c & s1 & Hlookup & Hcache & _).
  assert (H1 : JsMap.get k' (cache s1) = JsMap.get k' (cache s)).
  { destruct Hcache as [-> | [-> _]]; [reflexivity | now apply get_delete_other]. }
  destruct o as [r | e].
  - destruct (fetchWithCache_return env url key s s1 c Hlookup r s' Hrun)
      as [(_ & _ & ->) | (_ & _ & ->)]; [exact H1 |].
    simpl. now rewrite get_set_other.
  - now rewrite (fetchWithCache_throw env url key s s1 c Hlookup e s' Hrun).
Qed.

Lemma minus_is_not_known rest : ~ known_path (String "/" (String "-" rest)).
Proof.
  unfold known_path, comic_path.
  intros [H | [H | [H | [(d & H & _ & Hd) | [H | H]]]]]; try discriminate.
  injection H as <-. discriminate.
Qed.

(** ** The store stays a map *)

Lemma getCached_wf env key s c s' :
  getCached env key s = (Return c, s') -> JsMap.wf (cache s) -> JsMap.wf (cache s').
Proof.
  intros Hrun Hwf.
  destruct (getCached_total env key s) as (c' & s'' & Hrun' & Hcache & _).
  rewrite Hrun in Hrun'. injection Hrun' as _ <-.
  destruct Hcache as [-> | [-> _]]; [assumption | now apply wf_delete].
Qed.

Lemma fetchWithCache_wf env url key s o s' :
  fetchWithCache env url key s = (o, s') -> JsMap.wf (cache s) -> JsMap.wf (cache s').
Proof.
  intros Hrun Hwf.
  destruct (getCached_total env key s) as (c & s1 & Hlookup & _).
  pose proof (getCached_wf _ _ _ _ _ Hlookup Hwf) as Hwf1.
  destruct o as [r | e].
  - destruct (fetchWithCache_return env url key s s1 c Hlookup r s' Hrun)
      as [(_ & _ & ->) | (_ & _ & ->)]; [assumption | now apply wf_set].
  - now rewrite (fetchWithCache_throw env url key s s1 c Hlookup e s' Hrun).
Qed.

Lemma getRandomXkcd_wf env s o s' :
  getRandomXkcd env s = (o, s') -> JsMap.wf (cache s) -> JsMap.wf (cache s').
Proof.
  unfold getRandomXkcd, bind. intros Hrun Hwf.
  destruct (getLatestXkcd env s) as [[r | e] s1] eqn:Hlatest.
  - apply fetchWithCache_wf in Hlatest; [| assumption].
    unfold Math_random in Hrun.
    destruct (read_num (result_data r) (drawn s1)) as [[n | e] s2] eqn:Hnum.
    + assert (s2 = drawn s1) as ->.
      { destruct (result_data r); simpl in Hnum; unfold ret, throw in Hnum; congruence. }
      apply fetchWithCache_wf in Hrun; assumption.
    + destruct (result_data r); simpl in Hnum; unfold ret, throw in Hnum;
        try discriminate.
      injection Hnum as _ <-. injection Hrun as _ <-. assumption.
  - apply fetchWithCache_wf in Hlatest; [| assumption]. congruence.
Qed.

Lemma dispatch_wf env method path start s o s' :
  dispatch env method path start s = (o, s') ->
  JsMap.wf (cache s) -> JsMap.wf (cache s').
Proof.
  unfold dispatch. intros Hrun Hwf.
  destruct ((path =? "/")%string || (path =? "/latest")%string).
  { unfold bind in Hrun.
    destruct (getLatestXkcd env s) as [[r | e] s1] eqn:Hlatest;
      apply fetchWithCache_wf in Hlatest; try assumption.
    - rewrite respond_run in Hrun. injection Hrun as _ <-. assumption.
    - injection Hrun as _ <-. assumption. }
  destruct (path =? "/random")%string.
  { unfold bind in Hrun.
    destruct (getRandomXkcd env s) as [[r | e] s1] eqn:Hrandom;
      apply getRandomXkcd_wf in Hrandom; try assumption.
    - rewrite respond_run in Hrun. injection Hrun as _ <-. assumption.
    - injection Hrun as _ <-. assumption. }
  destruct (numeric_path path).
  { unfold bind in Hrun.
    destruct (getXkcdByNumber env (parseInt (substring1 path)) s)
      as [[r | e] s1] eqn:Hcomic;
      apply fetchWithCache_wf in Hcomic; try assumption.
    - rewrite respond_run in Hrun. injection Hrun as _ <-. assumption.
    - injection Hrun as _ <-. assumption. }
  destruct (path =? "/cache/stats")%string.
  { injection Hrun as _ <-. assumption. }
  destruct (path =? "/cache/clear")%string.
  { injection Hrun as _ <-. constructor. }
  injection Hrun as _ <-. assumption.
Qed.

(** Every request leaves the store a well-formed map, and every request is
    answered: the handler never throws. *)
Lemma handler_wf env method path s :
  JsMap.wf (cache s) ->
  exists r s', handler env method path s = (Return r, s') /\ JsMap.wf (cache s').
Proof.
  intros Hwf. destruct (String.eqb_spec method "OPTIONS") as [-> | Hm].
  - rewrite handler_preflight. eexists. eexists. split; [reflexivity | assumption].
  - rewrite handler_run by assumption. unfold try_catch.
    destruct (dispatch env method path (clock env (ticks s)) (tick s))
      as [[r | e] s1] eqn:Hd; apply dispatch_wf in Hd; try assumption.
    + eexists. eexists. split; [reflexivity | assumption].
    + rewrite recover_run. eexists. eexists. split; [reflexivity | assumption].
Qed.

(** A fresh, truthy entry for the latest comic answers the request without
    any upstream call. *)
Lemma latest_route_hit env method path s e :
  method <> "OPTIONS" ->
  path = "/" \/ path = "/latest" ->
  JsMap.get "latest" (cache s) = Some e ->
  clock env (S (ticks s)) - timestamp e < CACHE_DURATION ->
  truthy (data e) = true ->
  exists s',
    handler env method path s =
    (Return (success_envelope (data e) true "latest"
               (to_iso_string env (clock env (S (S (ticks s)))))), s') /\
    requests s' = requests s /\ cache s' = cache s.
Proof.
  intros Hm Hp Hget Hage Ht. rewrite handler_run by assumption.
  assert (Hd : dispatch env method path (clock env (ticks s)) =
               bind (getLatestXkcd env)
                    (fun r => respond env method path (clock env (ticks s))
                                (unpack r) "latest")).
  { destruct Hp as [-> | ->]; reflexivity. }
  rewrite Hd. unfold getLatestXkcd.
  assert (Hlookup : getCached env "latest" (tick s) = (Return (data e), tick (tick s))).
  { apply getCached_fresh; assumption. }
  erewrite run_no_catch.
  2:{ erewrite run_bind by (apply (fetchWithCache_hit env _ _ _ _ _ Hlookup Ht)).
      apply respond_run. }
  eexists. split; [reflexivity |]. split; reflexivity.
Qed.

(** The scenario of the specification: on a fresh store the first request for
    the latest comic is a miss and the second one a hit. *)
Example latest_miss_then_hit :
  let first := handler online "GET" "/latest" initial_state in
  let second := handler online "GET" "/latest" (snd first) in
  fst first =
    Return (success_envelope (JObj [ ("num", JNum 3000); ("title", JStr "Comic") ])
              false "latest" "2024-01-01T00:00:00.000Z") /\
  fst second =
    Return (success_envelope (JObj [ ("num", JNum 3000); ("title", JStr "Comic") ])
              true "latest" "2024-01-01T00:00:00.000Z") /\
  requests (snd second) = ["https://xkcd.com/info.0.json"].
Proof. cbv zeta. repeat split. Qed.

(** ** The claims of the specification *)

(** The clear operation empties the store, but the [previousSize] it reports
    is read from the store after [cache.clear()]: it is zero whatever the
    store held before. *)
Lemma clear_reports_size_after_clearing env s :
  exists s',
    handler env "GET" "/cache/clear" s =
    (Return (success_envelope
               (JObj [ ("message", JStr "Cache cleared"); ("previousSize", JNum 0) ])
               false "/cache/clear"
               (to_iso_string env (clock env (S (ticks s))))),
     s') /\
    cache s' = [].
Proof. eexists. split; reflexivity. Qed.

(** Claim C1, at the code.  With one entry in the store, [GET /cache/clear]
    answers [{message: "Cache cleared", previousSize: 0}], where the claim
    expects [previousSize: 1]. *)
Example clear_with_one_entry :
  fst (handler online "GET" "/cache/clear" (one_entry "latest" (JNum 7) 1)) =
  Return (success_envelope
            (JObj [ ("message", JStr "Cache cleared"); ("previousSize", JNum 0) ])
            false "/cache/clear" "2024-01-01T00:00:00.000Z").
Proof. reflexivity. Qed.

(** Claim C2.  A lookup returns the stored payload exactly when the key has
    an entry whose age, [now - timestamp], is below [CACHE_DURATION] (one
    hour), and then leaves the store alone.  Otherwise it returns [null]; when
    the entry was there but stale the lookup itself deletes it, so that the
    key is gone, the size of the store is one less, and no other key is
    touched. *)
Theorem getCached_returns_fresh_else_evicts env key s :
  JsMap.wf (cache s) ->
  let now := clock env (ticks s) in
  (forall e, JsMap.get key (cache s) = Some e ->
             now - timestamp e < CACHE_DURATION ->
             exists s', getCached env key s = (Return (data e), s') /\
                        cache s' = cache s) /\
  (forall e, JsMap.get key (cache s) = Some e ->
             CACHE_DURATION <= now - timestamp e ->
             exists s', getCached env key s = (Return JNull, s') /\
                        cache s' = JsMap.delete key (cache s) /\
                        JsMap.get key (cache s') = None /\
                        S (JsMap.size (cache s')) = JsMap.size (cache s) /\
                        forall k', k' <> key ->
                                   JsMap.get k' (cache s') = JsMap.get k' (cache s)) /\
  (JsMap.get key (cache s) = None ->
   getCached env key s = (Return JNull, s)).
Proof.
  intros Hwf now. repeat split.
  - intros e Hget Hage. exists (tick s). split; [| reflexivity].
    now apply getCached_fresh.
  - intros e Hget Hage. exists (with_cache (JsMap.delete key) (tick s)).
    split; [now apply getCached_stale with e |]. simpl.
    split; [reflexivity |]. split; [apply get_delete_same |].
    split; [now apply size_delete with e |].
    intros k' Hne. now apply get_delete_other.
  - apply getCached_absent.
Qed.

(** An entry inserted at time 0 and read one hour later is evicted. *)
Lemma getCached_witness :
  exists s',
    getCached online "latest" (one_entry "latest" (JNum 7) 60) = (Return JNull, s') /\
    JsMap.size (cache s') = 0%nat.
Proof.
  assert (Hwf : JsMap.wf (cache (one_entry "latest" (JNum 7) 60))).
  { repeat constructor. simpl. tauto. }
  destruct (getCached_returns_fresh_else_evicts online "latest"
              (one_entry "latest" (JNum 7) 60) Hwf) as (_ & Hstale & _).
  destruct (Hstale {| data := JNum 7; timestamp := 0 |} eq_refl)
    as (s' & Hrun & Hcache & _ & Hsize & _).
  - vm_compute. discriminate.
  - exists s'. split; [exact Hrun |].
    simpl in Hsize. unfold JsMap.size in *. lia.
Defined.

(** Claim C3 fails for a falsy payload: with the number [0] stored under
    [latest] and no time elapsed beyond one reading of the clock, the lookup
    does return [0], but [fetchWithCache] tests it with [if (cached)], takes
    it for a miss, asks the upstream again and the response says MISS. *)
Lemma falsy_payload_is_fetched_again :
  let url := "https://xkcd.com/info.0.json" in
  let s1 := snd (setCache online "latest" (JNum 0) initial_state) in
  clock online (ticks s1) - clock online (ticks initial_state) < CACHE_DURATION /\
  fst (getCached online "latest" s1) = Return (JNum 0) /\
  fst (fetchWithCache online url "latest" s1) <>
    Return {| result_data := JNum 0; result_cached := true |} /\
  requests (snd (fetchWithCache online url "latest" s1)) = [url] /\
  exists d stamp,
    fst (handler online "GET" "/latest" s1) =
    Return (success_envelope d false "latest" stamp).
Proof.
  cbv zeta. split; [vm_compute; reflexivity |].
  split; [reflexivity |]. split; [vm_compute; discriminate |].
  split; [reflexivity |]. eexists. eexists. reflexivity.
Qed.

(** Claim C3, amended.  While the entry that [setCache key v] inserted is
    still the one stored and less than [CACHE_DURATION] has elapsed, the
    lookup returns [v]; and when [v] is truthy the request is served from
    the entry, with [cached: true] and the header [X-Cache: HIT]. *)
Theorem put_then_get_within_ttl env url key v s s2 :
  JsMap.get key (cache s2) = JsMap.get key (cache (snd (setCache env key v s))) ->
  clock env (ticks s2) - clock env (ticks s) < CACHE_DURATION ->
  getCached env key s2 = (Return v, tick s2) /\
  (truthy v = true ->
   fetchWithCache env url key s2 =
     (Return {| result_data := v; result_cached := true |}, tick s2) /\
   forall method path start endpoint s3,
     fst (respond env method path start
            (unpack {| result_data := v; result_cached := true |}) endpoint s3) =
     Return (success_envelope v true endpoint
               (to_iso_string env (clock env (ticks s3))))).
Proof.
  intros Hget Hage. rewrite setCache_run in Hget. simpl in Hget.
  rewrite get_set_same in Hget.
  assert (Hrun : getCached env key s2 = (Return v, tick s2)).
  { apply (getCached_fresh env key s2 _ Hget). exact Hage. }
  split; [exact Hrun |]. intros Ht. split.
  - now apply fetchWithCache_hit.
  - reflexivity.
Qed.

(** A comic stored under [comic-7] is served back at the next reading of the
    clock. *)
Lemma put_then_get_witness :
  fetchWithCache online "https://xkcd.com/7/info.0.json" "comic-7"
    (snd (setCache online "comic-7" (JObj [("num", JNum 7)]) initial_state)) =
  (Return {| result_data := JObj [("num", JNum 7)]; result_cached := true |},
   tick (snd (setCache online "comic-7" (JObj [("num", JNum 7)]) initial_state))).
Proof.
  apply (put_then_get_within_ttl online "https://xkcd.com/7/info.0.json" "comic-7"
           (JObj [("num", JNum 7)]) initial_state
           (snd (setCache online "comic-7" (JObj [("num", JNum 7)]) initial_state))).
  - reflexivity.
  - vm_compute. reflexivity.
  - reflexivity.
Defined.

(** Claim C4 fails in its uniformity.  The latest ordinal [2^53 + 2] is a
    double, and [2^53 + 1] lies in its range, but no draw ever gives it: the
    result of the addition is a double and [2^53 + 1] is not one. *)
Lemma odd_number_is_never_drawn :
  is_double (2 ^ 53 + 2) /\
  1 <= 2 ^ 53 + 1 <= 2 ^ 53 + 2 /\
  forall a, randomNum a (Number.Int (2 ^ 53 + 2)) <> Number.Int (2 ^ 53 + 1).
Proof.
  split; [split; vm_compute; reflexivity |].
  split; [lia |].
  intros a [= E]. exact (succ_not_odd _ E).
Qed.

(** Claim C4, amended.  When the latest comic carries the ordinal [n >= 1],
    the number [Math.floor(Math.random() * n) + 1] is an integer [k] with
    [1 <= k <= n], whatever double in [0, 1) is drawn, and the random
    operation goes on to request exactly comic [k].  For [n] up to [2^53],
    [k] is the exact [floor(r * n) + 1] or one more, the product being
    rounded once; and for [n] up to [2^52] every number from 1 to [n] is
    given by some draw. *)
Theorem random_number_in_range env s r s1 fields n :
  getLatestXkcd env s = (Return r, s1) ->
  result_data r = JObj fields ->
  lookup_field "num" fields = Some (JNum n) ->
  1 <= n -> is_double n ->
  is_random_draw (random env (draws s1)) ->
  exists k,
    1 <= k <= n /\
    randomNum (random env (draws s1)) (Number.Int n) = Number.Int k /\
    getRandomXkcd env s = getXkcdByNumber env (Number.Int k) (drawn s1) /\
    (n <= 2 ^ 53 ->
     let exact := random env (draws s1) * n / Number.one_units in
     exact + 1 <= k <= exact + 2) /\
    (n <= 2 ^ 52 ->
     forall j, 1 <= j <= n ->
       exists a, is_random_draw a /\ randomNum a (Number.Int n) = Number.Int j).
Proof.
  intros Hrun Hdata Hnum Hn [Hfix _] Hdraw.
  pose proof (floor_mul_range _ n Hdraw Hn) as Hf.
  exists (Number.succ (Number.floor_mul (random env (draws s1)) n)).
  split; [| split; [reflexivity | split; [| split]]].
  - unfold Number.succ, Number.fl in *.
    destruct (Z.ltb_spec n 0); [lia |].
    destruct (Z.ltb_spec (Number.floor_mul (random env (draws s1)) n + 1) 0); [lia |].
    split.
    + apply round53_pos. lia.
    + apply round53_le_fixed; [lia | exact Hfix].
  - rewrite (getRandomXkcd_run env s r s1 fields Hrun Hdata). now rewrite Hnum.
  - intros H53 exact.
    pose proof (floor_mul_exact _ n Hdraw (conj Hn H53)) as Hexact. fold exact in Hexact.
    rewrite succ_safe by lia. lia.
  - intros H52 j Hj.
    destruct (every_number_is_drawn n j Hj H52) as (a & Ha & Hsucc).
    exists a. split; [exact Ha |]. simpl. now rewrite Hsucc.
Qed.

(** With 3000 comics and a draw of one half. *)
Lemma random_number_witness :
  exists k,
    1 <= k <= 3000 /\
    randomNum (random online 0) (Number.Int 3000) = Number.Int k /\
    getRandomXkcd online initial_state =
    getXkcdByNumber online (Number.Int k)
      (drawn (snd (getLatestXkcd online initial_state))) /\
    (3000 <= 2 ^ 53 ->
     let exact := random online 0 * 3000 / Number.one_units in
     exact + 1 <= k <= exact + 2) /\
    (3000 <= 2 ^ 52 ->
     forall j, 1 <= j <= 3000 ->
       exists a, is_random_draw a /\ randomNum a (Number.Int 3000) = Number.Int j).
Proof.
  apply (random_number_in_range online initial_state
           {| result_data := JObj [ ("num", JNum 3000); ("title", JStr "Comic") ];
              result_cached := false |}
           (snd (getLatestXkcd online initial_state))
           [ ("num", JNum 3000); ("title", JStr "Comic") ] 3000).
  - reflexivity.
  - reflexivity.
  - reflexivity.
  - lia.
  - split; vm_compute; reflexivity.
  - split; [split; vm_compute; [discriminate | reflexivity] | vm_compute; reflexivity].
Defined.

(** Claim C5.  On a cache miss, an upstream answer whose status is outside
    200..299 makes the fetch throw an error whose message, [HTTP <status>:
    <statusText>], contains the status code and the reason; and a request
    whose processing throws that error is answered with status 500 and the
    envelope [{success: false, error: <that message>}]. *)
Theorem upstream_error_becomes_500 env url key s c s1 st txt b :
  getCached env key s = (Return c, s1) ->
  truthy c = false ->
  upstream env url (List.length (requests s1)) = HttpResponse st txt b ->
  ok st = false ->
  let msg := http_error_message env st txt in
  fetchWithCache env url key s = (Throw (Error msg), sent url s1) /\
  contains msg (number_to_string env (Number.Int st)) /\
  contains msg txt /\
  forall method path s0 s2,
    method <> "OPTIONS" ->
    dispatch env method path (clock env (ticks s0)) (tick s0) = (Throw (Error msg), s2) ->
    exists s', handler env method path s0 = (Return (error_envelope msg), s') /\
               cache s' = cache s2.
Proof.
  intros Hlookup Ht Hup Hok msg. split; [| split; [| split]].
  - now apply fetchWithCache_http_error with c b.
  - exists "HTTP ", (": " ++ txt). reflexivity.
  - exists ("HTTP " ++ number_to_string env (Number.Int st) ++ ": "), "".
    subst msg. unfold http_error_message.
    now rewrite append_empty, !append_assoc.
  - intros method path s0 s2 Hm Hd.
    rewrite (handler_catches env method path s0 _ s2 Hm Hd).
    eexists. split; reflexivity.
Qed.

(** The scenario of the specification: the upstream answers 503. *)
Lemma upstream_error_witness :
  fetchWithCache unavailable "https://xkcd.com/info.0.json" "latest" (tick initial_state) =
    (Throw (Error "HTTP 503: Service Unavailable"),
     sent "https://xkcd.com/info.0.json" (tick initial_state)) /\
  fst (handler unavailable "GET" "/latest" initial_state) =
    Return (error_envelope "HTTP 503: Service Unavailable").
Proof.
  destruct (upstream_error_becomes_500 unavailable "https://xkcd.com/info.0.json"
              "latest" (tick initial_state) JNull (tick initial_state)
              503 "Service Unavailable" (BodyInvalid "Unexpected token <")
              eq_refl eq_refl eq_refl eq_refl) as (Hfetch & _ & _ & Hhandler).
  split; [exact Hfetch |].
  destruct (Hhandler "GET" "/latest" initial_state
              (sent "https://xkcd.com/info.0.json" (tick initial_state)))
    as (s' & Hrun & _).
  - discriminate.
  - reflexivity.
  - now rewrite Hrun.
Defined.

(** Claim C6.  A request (other than the preflight, which is answered
    before any routing) whose path is none of [/], [/latest], [/random],
    [/{digits}], [/cache/stats], [/cache/clear] gets status 404 and the body
    [{success: false, error: "Not Found", path}]; the store is not touched and
    no upstream request is sent. *)
Theorem unknown_path_not_found env method path s :
  method <> "OPTIONS" ->
  ~ known_path path ->
  exists s',
    handler env method path s = (Return (not_found_envelope path), s') /\
    cache s' = cache s /\ requests s' = requests s.
Proof.
  intros Hm Hk. rewrite handler_run by assumption.
  erewrite run_no_catch by (now apply dispatch_default).
  eexists. split; [reflexivity |]. split; reflexivity.
Qed.

(** The scenario of the specification: [GET /nonexistent/path]. *)
Lemma unknown_path_witness :
  exists s',
    handler online "GET" "/nonexistent/path" initial_state =
    (Return (not_found_envelope "/nonexistent/path"), s') /\
    cache s' = [] /\ requests s' = [].
Proof.
  apply (unknown_path_not_found online "GET" "/nonexistent/path" initial_state).
  - discriminate.
  - unfold known_path, comic_path.
    intros [H | [H | [H | [(d & H & _ & Hd) | [H | H]]]]]; try discriminate.
    injection H as <-. discriminate.
Defined.

(** Claim C7.  If the fetch of the latest comic fails, the random operation
    fails with the same error in the same state: the only request sent is
    the one for the latest comic and no random number is drawn. *)
Theorem random_fails_with_latest_error env s e s' :
  getLatestXkcd env s = (Throw e, s') ->
  getRandomXkcd env s = (Throw e, s') /\
  requests s' = (requests s ++ ["https://xkcd.com/info.0.json"])%list /\
  draws s' = draws s.
Proof.
  intros Hlatest. split.
  - unfold getRandomXkcd. now apply run_bind_throw.
  - destruct (getCached_total env "latest" s) as (c & s1 & Hlookup & _ & Hreq & Hdraws).
    unfold getLatestXkcd in Hlatest.
    rewrite (fetchWithCache_throw env _ _ s s1 c Hlookup e s' Hlatest).
    simpl. now rewrite Hreq, Hdraws.
Qed.

(** With the upstream out of service, [/random] stops at the latest comic. *)
Lemma random_fails_witness :
  getRandomXkcd unavailable initial_state =
    (Throw (Error "HTTP 503: Service Unavailable"),
     sent "https://xkcd.com/info.0.json" initial_state) /\
  requests (sent "https://xkcd.com/info.0.json" initial_state) =
    ([] ++ ["https://xkcd.com/info.0.json"])%list /\
  draws (sent "https://xkcd.com/info.0.json" initial_state) = 0%nat.
Proof.
  apply (random_fails_with_latest_error unavailable initial_state).
  reflexivity.
Defined.

(** Claim C8.  When [fetchWithCache] fails for a key, the store is either
    untouched or has lost that key's stale entry, deleted by the lookup; no
    entry was inserted for the key and every other key reads as before. *)
Theorem failed_fetch_leaves_store_consistent env url key s e s' :
  fetchWithCache env url key s = (Throw e, s') ->
  (cache s' = cache s \/
   cache s' = JsMap.delete key (cache s) /\
   exists old, JsMap.get key (cache s) = Some old /\
               CACHE_DURATION <= clock env (ticks s) - timestamp old) /\
  (JsMap.get key (cache s') = None \/
   JsMap.get key (cache s') = JsMap.get key (cache s)) /\
  (forall k', k' <> key -> JsMap.get k' (cache s') = JsMap.get k' (cache s)).
Proof.
  intros Hrun.
  destruct (getCached_total env key s) as (c & s1 & Hlookup & Hcache & _ & _).
  rewrite (fetchWithCache_throw env url key s s1 c Hlookup e s' Hrun). simpl.
  destruct Hcache as [-> | [-> Hold]].
  - split; [now left |]. split; [now right | reflexivity].
  - split; [right; now split |].
    split; [left; apply get_delete_same |].
    intros k' Hne. now apply get_delete_other.
Qed.

(** A stale entry, then a failing fetch: the entry is gone, nothing else
    changed. *)
Lemma failed_fetch_witness :
  let s := one_entry "latest" (JObj [("num", JNum 1)]) 60 in
  let s' := snd (fetchWithCache unavailable "https://xkcd.com/info.0.json" "latest" s) in
  (cache s' = cache s \/
   cache s' = JsMap.delete "latest" (cache s) /\
   exists old, JsMap.get "latest" (cache s) = Some old /\
               CACHE_DURATION <= clock unavailable (ticks s) - timestamp old) /\
  (JsMap.get "latest" (cache s') = None \/
   JsMap.get "latest" (cache s') = JsMap.get "latest" (cache s)) /\
  (forall k', k' <> "latest" -> JsMap.get k' (cache s') = JsMap.get k' (cache s)).
Proof.
  intros s s'.
  apply (failed_fetch_leaves_store_consistent unavailable
           "https://xkcd.com/info.0.json" "latest" s
           (Error "HTTP 503: Service Unavailable") s').
  reflexivity.
Defined.

(** Claim C9 fails for a negative segment: [/-5] is not matched by
    [/^\/\d+$/], so the handler answers 404 itself and sends nothing
    upstream. *)
Lemma negative_segment_is_not_forwarded :
  fst (handler online "GET" "/-5" initial_state) = Return (not_found_envelope "/-5") /\
  requests (snd (handler online "GET" "/-5" initial_state)) = [].
Proof. split; reflexivity. Qed.

(** Claim C9, amended.  A zero segment ([/0], [/00], ...) is passed through
    without validation: the request is answered by [getXkcdByNumber(0)], and
    with no entry for [comic-0] in the store the request for comic 0 is sent
    upstream, whatever it answers.  A segment with a minus sign is not a
    numeric route: it gets the handler's own 404 and nothing is sent. *)
Theorem zero_segment_is_passed_through env method d s :
  method <> "OPTIONS" ->
  d <> "" -> all_digits d = true -> denote d = 0 ->
  handler env method (String "/" d) s =
    match getXkcdByNumber env (Number.Int 0) (tick s) with
    | (Return r, s1) =>
        respond env method (String "/" d) (clock env (ticks s)) (unpack r) "comic-0" s1
    | (Throw e, s1) => recover env method (String "/" d) (clock env (ticks s)) e s1
    end /\
  (JsMap.get "comic-0" (cache s) = None ->
   exists r s',
     handler env method (String "/" d) s = (Return r, s') /\
     requests s' = (requests s ++ ["https://xkcd.com/0/info.0.json"])%list) /\
  (forall rest,
     exists s',
       handler env method (String "/" (String "-" rest)) s =
         (Return (not_found_envelope (String "/" (String "-" rest))), s') /\
       requests s' = requests s).
Proof.
  intros Hm Hne Hd H0.
  assert (Hroute :
    handler env method (String "/" d) s =
    match getXkcdByNumber env (Number.Int 0) (tick s) with
    | (Return r, s1) =>
        respond env method (String "/" d) (clock env (ticks s)) (unpack r) "comic-0" s1
    | (Throw e, s1) => recover env method (String "/" d) (clock env (ticks s)) e s1
    end).
  { rewrite handler_numeric by assumption.
    rewrite parseInt_digits, H0 by assumption. reflexivity. }
  split; [exact Hroute |]. split.
  - intros Hget. rewrite Hroute.
    destruct (getXkcdByNumber env (Number.Int 0) (tick s)) as [[r | e] s1] eqn:Hrun;
      apply (fetchWithCache_absent_requests env _ "comic-0" (tick s)) in Hrun;
      try exact Hget.
    + rewrite respond_run. eexists. eexists. split; [reflexivity |]. exact Hrun.
    + rewrite recover_run. eexists. eexists. split; [reflexivity |]. exact Hrun.
  - intros rest. rewrite handler_default by (try assumption; apply minus_is_not_known).
    eexists. split; reflexivity.
Qed.

(** [/00] reaches the upstream as comic 0; [/-5] does not leave the handler. *)
Lemma zero_segment_witness :
  (exists r s',
     handler online "GET" "/00" initial_state = (Return r, s') /\
     requests s' = ["https://xkcd.com/0/info.0.json"]) /\
  (exists s',
     handler online "GET" "/-5" initial_state =
       (Return (not_found_envelope "/-5"), s') /\
     requests s' = []).
Proof.
  destruct (zero_segment_is_passed_through online "GET" "00" initial_state)
    as (_ & Hzero & Hminus).
  - discriminate.
  - discriminate.
  - reflexivity.
  - reflexivity.
  - split; [exact (Hzero eq_refl) | exact (Hminus "5")].
Defined.

(** Claim C10.  Two digit strings that denote the same integer are parsed
    to the same number; both paths run the same [fetchWithCache] call, on the
    same URL and the same cache key, under the same endpoint label, and
    from the same state they give the same response, the same store and the
    same upstream requests; no entry but the one under that key is read or
    written. *)
Theorem same_integer_same_comic env method d1 d2 s :
  method <> "OPTIONS" ->
  d1 <> "" -> d2 <> "" ->
  all_digits d1 = true -> all_digits d2 = true ->
  denote d1 = denote d2 ->
  let num := Number.of_Z (denote d1) in
  let key := ("comic-" ++ number_to_string env num)%string in
  let url := ("https://xkcd.com/" ++ number_to_string env num ++ "/info.0.json")%string in
  parseInt d1 = num /\ parseInt d2 = num /\
  (forall d start,
     d = d1 \/ d = d2 ->
     dispatch env method (String "/" d) start =
     bind (fetchWithCache env url key)
          (fun r => respond env method (String "/" d) start (unpack r) key)) /\
  fst (handler env method (String "/" d1) s) =
    fst (handler env method (String "/" d2) s) /\
  cache (snd (handler env method (String "/" d1) s)) =
    cache (snd (handler env method (String "/" d2) s)) /\
  requests (snd (handler env method (String "/" d1) s)) =
    requests (snd (handler env method (String "/" d2) s)) /\
  (forall k', k' <> key ->
     JsMap.get k' (cache (snd (handler env method (String "/" d1) s))) =
     JsMap.get k' (cache s)).
Proof.
  intros Hm Hne1 Hne2 Hd1 Hd2 Hden num key url.
  assert (Hp1 : parseInt d1 = num) by now apply parseInt_digits.
  assert (Hp2 : parseInt d2 = num).
  { rewrite parseInt_digits by assumption. subst num. now rewrite Hden. }
  split; [exact Hp1 |]. split; [exact Hp2 |]. split.
  - intros d start [-> | ->]; rewrite dispatch_numeric by assumption;
      [rewrite Hp1 | rewrite Hp2]; reflexivity.
  - rewrite !handler_numeric by assumption. rewrite Hp1, Hp2.
    destruct (getXkcdByNumber env num (tick s)) as [[r | e] s1] eqn:Hrun;
      [rewrite !respond_run | rewrite !recover_run];
      (repeat split; intros k' Hk; simpl;
       exact (fetchWithCache_other_keys env url key (tick s) _ s1 k' Hrun Hk)).
Qed.

(** [/007] and [/7]: comic 7, key [comic-7]. *)
Lemma same_integer_witness :
  parseInt "007" = Number.Int 7 /\ parseInt "7" = Number.Int 7 /\
  (forall d start,
     d = "007" \/ d = "7" ->
     dispatch online "GET" (String "/" d) start =
     bind (fetchWithCache online "https://xkcd.com/7/info.0.json" "comic-7")
          (fun r => respond online "GET" (String "/" d) start (unpack r) "comic-7")) /\
  fst (handler online "GET" "/007" initial_state) =
    fst (handler online "GET" "/7" initial_state) /\
  cache (snd (handler online "GET" "/007" initial_state)) =
    cache (snd (handler online "GET" "/7" initial_state)) /\
  requests (snd (handler online "GET" "/007" initial_state)) =
    requests (snd (handler online "GET" "/7" initial_state)) /\
  (forall k', k' <> "comic-7" ->
     JsMap.get k' (cache (snd (handler online "GET" "/007" initial_state))) =
     JsMap.get k' (cache initial_state)).
Proof.
  apply (same_integer_same_comic online "GET" "007" "7" initial_state);
    first [discriminate | reflexivity].
Defined.

(** * Further properties of the code *)

(** ** The handler, operation by operation *)

Lemma dispatch_operation env method path start s :
  dispatch env method path start s =
  match operation env path with
  | Some (op, endpoint) =>
      bind op (fun r => respond env method path start r endpoint) s
  | None =>
      (Return (not_found_envelope path), log_request env method path 404 start s)
  end.
Proof.
  unfold dispatch, operation.
  destruct ((path =? "/")%string || (path =? "/latest")%string).
  { unfold fetched, bind, ret. now destruct (getLatestXkcd env s) as [[r | e] s1]. }
  destruct (path =? "/random")%string.
  { unfold fetched, bind, ret. now destruct (getRandomXkcd env s) as [[r | e] s1]. }
  destruct (numeric_path path).
  { unfold fetched, bind, ret.
    now destruct (getXkcdByNumber env (parseInt (substring1 path)) s) as [[r | e] s1]. }
  destruct (path =? "/cache/stats")%string; [reflexivity |].
  destruct (path =? "/cache/clear")%string; reflexivity.
Qed.

(** The whole handler, for a request that is not a preflight. *)
Lemma handler_operation env method path s :
  method <> "OPTIONS" ->
  handler env method path s =
  match operation env path with
  | Some (op, endpoint) =>
      match op (tick s) with
      | (Return r, s1) =>
          (Return (success_envelope (fst r) (snd r) endpoint
                     (to_iso_string env (clock env (ticks s1)))),
           log_request env method path 200 (clock env (ticks s)) (tick s1))
      | (Throw e, s1) =>
          (Return (error_envelope (or_else (message e) "Internal Server Error")),
           log_request env method path 500 (clock env (ticks s))
             (logged (ConsoleError "Error:" e) s1))
      end
  | None =>
      (Return (not_found_envelope path),
       log_request env method path 404 (clock env (ticks s)) (tick s))
  end.
Proof.
  intros Hm. rewrite handler_run by assumption.
  unfold try_catch. rewrite dispatch_operation.
  destruct (operation env path) as [[op endpoint] |]; [| reflexivity].
  unfold bind. destruct (op (tick s)) as [[r | e] s1]; reflexivity.
Qed.

(** ** More on the cache map *)
Section MoreMapFacts.
Context {V : Type}.
Implicit Types (m : list (string * V)) (k : string) (v : V).

Lemma size_delete_le k m : (JsMap.size (JsMap.delete k m) <= JsMap.size m)%nat.
Proof.
  unfold JsMap.size. induction m as [| [k' v'] m IH]; simpl; [lia |].
  destruct (k' =? k)%string; simpl; lia.
Qed.

Lemma set_present k v v0 m :
  JsMap.get k m = Some v0 ->
  JsMap.keys (JsMap.set k v m) = JsMap.keys m /\
  JsMap.size (JsMap.set k v m) = JsMap.size m.
Proof.
  unfold JsMap.keys, JsMap.size. induction m as [| [k' v'] m IH]; simpl; [discriminate |].
  destruct (String.eqb_spec k' k) as [-> | Hne]; simpl; [tauto |].
  intros H. destruct (IH H) as [-> ->]. tauto.
Qed.

Lemma set_absent k v m :
  JsMap.get k m = None -> JsMap.set k v m = (m ++ [(k, v)])%list.
Proof.
  induction m as [| [k' v'] m IH]; simpl; [reflexivity |].
  destruct (String.eqb_spec k' k); [discriminate |].
  intros H. now rewrite IH.
Qed.

Lemma size_set_le k v m : (JsMap.size (JsMap.set k v m) <= S (JsMap.size m))%nat.
Proof.
  destruct (JsMap.get k m) as [v0 |] eqn:Hget.
  - destruct (set_present k v v0 m Hget) as [_ ->]. lia.
  - rewrite set_absent by assumption. unfold JsMap.size.
    rewrite length_app. simpl. lia.
Qed.

Lemma keys_in_get k m : In k (JsMap.keys m) <-> JsMap.get k m <> None.
Proof.
  pose proof (get_none_keys k m) as H.
  destruct (JsMap.get k m); split; intros; try discriminate; try tauto.
  destruct (in_dec string_dec k (JsMap.keys m)); [assumption |].
  apply H in n. discriminate.
Qed.

End MoreMapFacts.

(** ** The cache helpers, read backwards *)

(** A lookup that returns something truthy found a fresh entry and did
    nothing but read the clock. *)
Lemma getCached_truthy env key s c s1 :
  getCached env key s = (Return c, s1) ->
  truthy c = true ->
  exists e, JsMap.get key (cache s) = Some e /\ data e = c /\
            clock env (ticks s) - timestamp e < CACHE_DURATION /\
            s1 = tick s.
Proof.
  intros Hrun Ht.
  destruct (JsMap.get key (cache s)) as [e |] eqn:Hget.
  - destruct (Z_lt_le_dec (clock env (ticks s) - timestamp e) CACHE_DURATION) as [Hf | Hs].
    + rewrite (getCached_fresh env key s e Hget Hf) in Hrun.
      injection Hrun as <- <-. now exists e.
    + rewrite (getCached_stale env key s e Hget Hs) in Hrun.
      injection Hrun as <- _. discriminate.
  - rewrite (getCached_absent env key s Hget) in Hrun.
    injection Hrun as <- _. discriminate.
Qed.

(** After any lookup the key is absent, or holds a fresh entry. *)
Lemma getCached_after env key s c s1 :
  getCached env key s = (Return c, s1) ->
  requests s1 = requests s /\ draws s1 = draws s /\ console s1 = console s /\
  (ticks s1 = ticks s \/ ticks s1 = S (ticks s)) /\
  (JsMap.size (cache s1) <= JsMap.size (cache s))%nat.
Proof.
  intros Hrun.
  destruct (JsMap.get key (cache s)) as [e |] eqn:Hget.
  - destruct (Z_lt_le_dec (clock env (ticks s) - timestamp e) CACHE_DURATION) as [Hf | Hs].
    + rewrite (getCached_fresh env key s e Hget Hf) in Hrun.
      injection Hrun as _ <-. simpl. repeat split; auto.
    + rewrite (getCached_stale env key s e Hget Hs) in Hrun.
      injection Hrun as _ <-. simpl. repeat split; auto. apply size_delete_le.
  - rewrite (getCached_absent env key s Hget) in Hrun.
    injection Hrun as _ <-. repeat split; auto.
Qed.

(** ** Properties of the cache and of the caching fetch *)

(** Property X1.  [setCache] inserts or overwrites.  On a key that is
    present the entry is replaced where it stands: the order of the keys and
    the size of the store do not change.  On a key that is absent the entry
    is appended.  In both cases the key then reads as the new payload stamped
    with the clock, and every other key reads as before. *)
Theorem setCache_inserts_or_overwrites env key d s :
  let s' := snd (setCache env key d s) in
  let fresh := {| data := d; timestamp := clock env (ticks s) |} in
  JsMap.get key (cache s') = Some fresh /\
  (forall k', k' <> key -> JsMap.get k' (cache s') = JsMap.get k' (cache s)) /\
  (forall old, JsMap.get key (cache s) = Some old ->
               JsMap.keys (cache s') = JsMap.keys (cache s) /\
               JsMap.size (cache s') = JsMap.size (cache s)) /\
  (JsMap.get key (cache s) = None ->
   cache s' = (cache s ++ [(key, fresh)])%list).
Proof.
  intros s' fresh. subst s'. rewrite setCache_run. simpl.
  split; [apply get_set_same |].
  split; [intros k' Hne; now apply get_set_other |].
  split; [intros old Hold; now apply set_present with old |].
  apply set_absent.
Qed.

(** Property X2.  A result marked [cached: true] is never stale and costs
    nothing: the payload is the one stored under the key, that entry is
    younger than [CACHE_DURATION] at the time of the lookup, no request is
    sent and the store is left as it was. *)
Theorem hit_is_fresh_and_free env url key s r s' :
  fetchWithCache env url key s = (Return r, s') ->
  result_cached r = true ->
  exists e,
    JsMap.get key (cache s) = Some e /\
    result_data r = data e /\
    clock env (ticks s) - timestamp e < CACHE_DURATION /\
    cache s' = cache s /\ requests s' = requests s.
Proof.
  intros Hrun Hhit.
  destruct (getCached_total env key s) as (c & s1 & Hlookup & _).
  destruct (fetchWithCache_return env url key s s1 c Hlookup r s' Hrun)
    as [(-> & Ht & ->) | (Hmiss & _)]; [| congruence].
  destruct (getCached_truthy env key s c s1 Hlookup Ht) as (e & Hget & <- & Hage & ->).
  exists e. repeat split; assumption.
Qed.

Lemma hit_is_fresh_witness :
  exists e,
    JsMap.get "latest" (cache (one_entry "latest" (JObj [("num", JNum 1)]) 59)) = Some e /\
    JObj [("num", JNum 1)] = data e /\
    clock online 59 - timestamp e < CACHE_DURATION /\
    cache (tick (one_entry "latest" (JObj [("num", JNum 1)]) 59)) =
      cache (one_entry "latest" (JObj [("num", JNum 1)]) 59) /\
    requests (tick (one_entry "latest" (JObj [("num", JNum 1)]) 59)) =
      requests (one_entry "latest" (JObj [("num", JNum 1)]) 59).
Proof.
  apply (hit_is_fresh_and_free online "https://xkcd.com/info.0.json" "latest"
           (one_entry "latest" (JObj [("num", JNum 1)]) 59)
           {| result_data := JObj [("num", JNum 1)]; result_cached := true |}
           (tick (one_entry "latest" (JObj [("num", JNum 1)]) 59))).
  - reflexivity.
  - reflexivity.
Defined.

(** Property X3.  A result marked [cached: false] is written through: exactly
    one request was sent, to the given URL; the upstream answered it with a
    success status and the very payload returned; and the store now holds
    that payload under the key. *)
Theorem miss_is_written_through env url key s r s' :
  fetchWithCache env url key s = (Return r, s') ->
  result_cached r = false ->
  requests s' = (requests s ++ [url])%list /\
  (exists st txt,
     upstream env url (List.length (requests s)) =
       HttpResponse st txt (BodyJson (result_data r)) /\
     200 <= st <= 299) /\
  (exists t, JsMap.get key (cache s') = Some {| data := result_data r; timestamp := t |}).
Proof.
  intros Hrun Hmiss.
  destruct (getCached_total env key s) as (c & s1 & Hlookup & _).
  destruct (getCached_after env key s c s1 Hlookup) as (Hreq & _).
  destruct (truthy c) eqn:Ht.
  { rewrite (fetchWithCache_hit env url key s s1 c Hlookup Ht) in Hrun.
    injection Hrun as <- _. discriminate. }
  destruct (upstream env url (List.length (requests s1))) as [m | st txt b] eqn:Hup.
  { rewrite (fetchWithCache_network_failure env url key s s1 c Hlookup m Ht Hup) in Hrun.
    discriminate. }
  destruct (ok st) eqn:Hok.
  2:{ rewrite (fetchWithCache_http_error env url key s s1 c Hlookup st txt b Ht Hup Hok)
        in Hrun. discriminate. }
  destruct b as [d | m].
  2:{ rewrite (fetchWithCache_parse_error env url key s s1 c Hlookup st txt m Ht Hup Hok)
        in Hrun. discriminate. }
  rewrite (fetchWithCache_miss env url key s s1 c Hlookup st txt d Ht Hup Hok) in Hrun.
  injection Hrun as <- <-. simpl. rewrite Hreq in *.
  split; [reflexivity |]. split.
  - exists st, txt. split; [exact Hup |].
    unfold ok in Hok. apply andb_prop in Hok. lia.
  - eexists. apply get_set_same.
Qed.

Lemma miss_is_written_through_witness :
  let s' := snd (fetchWithCache online "https://xkcd.com/info.0.json" "latest" initial_state) in
  let d := JObj [ ("num", JNum 3000); ("title", JStr "Comic") ] in
  requests s' = ([] ++ ["https://xkcd.com/info.0.json"])%list /\
  (exists st txt,
     upstream online "https://xkcd.com/info.0.json" 0 = HttpResponse st txt (BodyJson d) /\
     200 <= st <= 299) /\
  (exists t, JsMap.get "latest" (cache s') = Some {| data := d; timestamp := t |}).
Proof.
  intros s' d.
  apply (miss_is_written_through online "https://xkcd.com/info.0.json" "latest"
           initial_state {| result_data := d; result_cached := false |} s').
  - reflexivity.
  - reflexivity.
Defined.

(** Property X4.  A miss followed by a hit.  Once a fetch has returned a
    truthy payload with [cached: false], any later fetch for the same key,
    made while the key still holds that entry and the entry is younger than
    [CACHE_DURATION], returns the same payload with [cached: true] and sends
    nothing. *)
Theorem miss_then_hit env url key s r s' url2 s2 :
  fetchWithCache env url key s = (Return r, s') ->
  result_cached r = false ->
  truthy (result_data r) = true ->
  JsMap.get key (cache s2) = JsMap.get key (cache s') ->
  (forall e, JsMap.get key (cache s') = Some e ->
             clock env (ticks s2) - timestamp e < CACHE_DURATION) ->
  fetchWithCache env url2 key s2 =
  (Return {| result_data := result_data r; result_cached := true |}, tick s2).
Proof.
  intros Hrun Hmiss Ht Hsame Hage.
  assert (Hstored : exists t, JsMap.get key (cache s') =
                              Some {| data := result_data r; timestamp := t |}).
  { destruct (getCached_total env key s) as (c & s1 & Hlookup & _).
    destruct (fetchWithCache_return env url key s s1 c Hlookup r s' Hrun)
      as [(-> & _ & _) | (_ & _ & ->)]; [discriminate |].
    eexists. simpl. apply get_set_same. }
  destruct Hstored as (t & Hget).
  apply fetchWithCache_hit with (c := result_data r); [| exact Ht].
  rewrite <- Hsame in Hget.
  apply (getCached_fresh env key s2 _ Hget). simpl.
  rewrite Hsame in Hget. exact (Hage _ Hget).
Qed.

Lemma miss_then_hit_witness :
  let first := fetchWithCache online "https://xkcd.com/info.0.json" "latest" initial_state in
  fetchWithCache online "https://xkcd.com/info.0.json" "latest" (snd first) =
  (Return {| result_data := JObj [ ("num", JNum 3000); ("title", JStr "Comic") ];
             result_cached := true |},
   tick (snd first)).
Proof.
  intros first.
  apply (miss_then_hit online "https://xkcd.com/info.0.json" "latest" initial_state
           {| result_data := JObj [ ("num", JNum 3000); ("title", JStr "Comic") ];
              result_cached := false |}
           (snd first) "https://xkcd.com/info.0.json" (snd first)).
  - reflexivity.
  - reflexivity.
  - reflexivity.
  - reflexivity.
  - intros e [= <-]. vm_compute. reflexivity.
Defined.

(** Property X5.  Refreshing a stale entry.  When the key holds an entry of
    age [CACHE_DURATION] or more and the upstream answers with a document, the
    fetch returns that document with [cached: false]; the old entry is gone,
    the new one stands last in the order of the keys, and the size of the
    store is what it was. *)
Theorem stale_entry_is_refreshed env url key s old st txt d :
  JsMap.wf (cache s) ->
  JsMap.get key (cache s) = Some old ->
  CACHE_DURATION <= clock env (ticks s) - timestamp old ->
  upstream env url (List.length (requests s)) = HttpResponse st txt (BodyJson d) ->
  ok st = true ->
  exists s',
    fetchWithCache env url key s =
      (Return {| result_data := d; result_cached := false |}, s') /\
    JsMap.get key (cache s') =
      Some {| data := d; timestamp := clock env (S (ticks s)) |} /\
    JsMap.keys (cache s') = (JsMap.keys (JsMap.delete key (cache s)) ++ [key])%list /\
    JsMap.size (cache s') = JsMap.size (cache s).
Proof.
  intros Hwf Hget Hstale Hup Hok.
  pose proof (getCached_stale env key s old Hget Hstale) as Hlookup.
  eexists. split.
  - apply (fetchWithCache_miss env url key s _ JNull Hlookup st txt d);
      [reflexivity | exact Hup | exact Hok].
  - simpl. split; [apply get_set_same |].
    rewrite set_absent by apply get_delete_same.
    split.
    + unfold JsMap.keys. now rewrite map_app.
    + unfold JsMap.size. rewrite length_app. simpl.
      pose proof (size_delete key old (cache s) Hwf Hget) as Hsize.
      unfold JsMap.size in Hsize. lia.
Qed.

Lemma stale_entry_is_refreshed_witness :
  exists s',
    fetchWithCache online "https://xkcd.com/info.0.json" "latest"
      (one_entry "latest" (JNum 7) 60) =
      (Return {| result_data := JObj [ ("num", JNum 3000); ("title", JStr "Comic") ];
                 result_cached := false |}, s') /\
    JsMap.get "latest" (cache s') =
      Some {| data := JObj [ ("num", JNum 3000); ("title", JStr "Comic") ];
              timestamp := clock online 61 |} /\
    JsMap.keys (cache s') = ([] ++ ["latest"])%list /\
    JsMap.size (cache s') = 1%nat.
Proof.
  apply (stale_entry_is_refreshed online "https://xkcd.com/info.0.json" "latest"
           (one_entry "latest" (JNum 7) 60) {| data := JNum 7; timestamp := 0 |}
           200 "OK" (JObj [ ("num", JNum 3000); ("title", JStr "Comic") ])).
  - repeat constructor. simpl. tauto.
  - reflexivity.
  - vm_compute. discriminate.
  - reflexivity.
  - reflexivity.
Defined.

(** ** What a request may do to the world *)

Lemma sends_refl s : sends 0 s s.
Proof.
  exists []. rewrite app_nil_r. simpl. repeat split; auto; lia.
Qed.

Lemma sends_trans n m s s1 s2 :
  sends n s s1 -> sends m s1 s2 -> sends (n + m) s s2.
Proof.
  intros (l1 & Hr1 & Hn & Hu1 & Hs1 & Hc1) (l2 & Hr2 & Hm & Hu2 & Hs2 & Hc2).
  exists (l1 ++ l2)%list. rewrite Hr2, Hr1, app_assoc, length_app.
  repeat split; try lia; [now apply Forall_app | congruence].
Qed.

Lemma sends_weaken n m s s' : (n <= m)%nat -> sends n s s' -> sends m s s'.
Proof.
  intros Hle (l & Hr & Hn & Hu & Hs & Hc). exists l. repeat split; auto; lia.
Qed.

Lemma fetchWithCache_sends env url key s o s' :
  xkcd_url url ->
  fetchWithCache env url key s = (o, s') -> sends 1 s s' /\ draws s' = draws s.
Proof.
  intros Hurl Hrun.
  destruct (getCached_total env key s) as (c & s1 & Hlookup & _).
  destruct (getCached_after env key s c s1 Hlookup) as (Hreq & Hdr & Hcon & _ & Hsize).
  destruct o as [r | e].
  - destruct (fetchWithCache_return env url key s s1 c Hlookup r s' Hrun)
      as [(_ & _ & ->) | (_ & _ & ->)].
    + split; [| exact Hdr]. exists []. rewrite app_nil_r. simpl.
      repeat split; auto; lia.
    + split; [| exact Hdr]. exists [url]. simpl. rewrite Hreq.
      repeat split; auto.
      pose proof (size_set_le key
                    {| data := result_data r; timestamp := clock env (ticks s1) |}
                    (cache s1)). lia.
  - rewrite (fetchWithCache_throw env url key s s1 c Hlookup e s' Hrun).
    split; [| exact Hdr]. exists [url]. simpl. rewrite Hreq.
    repeat split; auto. lia.
Qed.

Lemma latest_url_ok : xkcd_url "https://xkcd.com/info.0.json".
Proof. now exists "". Qed.

Lemma comic_url_ok env num :
  xkcd_url ("https://xkcd.com/" ++ number_to_string env num ++ "/info.0.json").
Proof.
  exists (number_to_string env num ++ "/"). now rewrite !append_assoc.
Qed.

Lemma getRandomXkcd_sends env s o s' :
  getRandomXkcd env s = (o, s') -> sends 2 s s'.
Proof.
  unfold getRandomXkcd, bind. intros Hrun.
  destruct (getLatestXkcd env s) as [[r | e] s1] eqn:Hlatest;
    apply (fetchWithCache_sends env _ _ _ _ _ latest_url_ok) in Hlatest;
    destruct Hlatest as [Hlatest _].
  - unfold Math_random in Hrun.
    assert (Hdrawn : sends 1 s (drawn s1)) by exact Hlatest.
    destruct (read_num (result_data r) (drawn s1)) as [[n | e] s2] eqn:Hnum.
    + assert (s2 = drawn s1) as ->.
      { destruct (result_data r); simpl in Hnum; unfold ret, throw in Hnum; congruence. }
      apply (fetchWithCache_sends env _ _ _ _ _ (comic_url_ok env _)) in Hrun.
      exact (sends_trans 1 1 _ _ _ Hdrawn (proj1 Hrun)).
    + destruct (result_data r); simpl in Hnum; unfold ret, throw in Hnum;
        try discriminate.
      injection Hnum as _ <-. injection Hrun as _ <-.
      now apply sends_weaken with 1%nat; [lia |].
  - injection Hrun as _ <-. now apply sends_weaken with 1%nat; [lia |].
Qed.

Lemma fetched_run m s :
  fetched m s =
  match m s with
  | (Return r, s1) => (Return (unpack r), s1)
  | (Throw e, s1) => (Throw e, s1)
  end.
Proof. unfold fetched, bind, ret. now destruct (m s) as [[r | e] s1]. Qed.

(** Every operation of the table sends at most two requests, and at most one
    unless it is the random one. *)
Lemma operation_sends env path op endpoint s o s' :
  operation env path = Some (op, endpoint) ->
  op s = (o, s') ->
  sends (if (path =? "/random")%string then 2 else 1) s s'.
Proof.
  unfold operation.
  destruct (String.eqb_spec path "/") as [-> | H1]; simpl.
  { intros [= <- _]. rewrite fetched_run.
    destruct (getLatestXkcd env s) as [[r | e] s1] eqn:Hrun; intros [= _ <-];
      now apply (fetchWithCache_sends env _ _ _ _ _ latest_url_ok) in Hrun. }
  destruct (String.eqb_spec path "/latest") as [-> | H2]; simpl.
  { intros [= <- _]. rewrite fetched_run.
    destruct (getLatestXkcd env s) as [[r | e] s1] eqn:Hrun; intros [= _ <-];
      now apply (fetchWithCache_sends env _ _ _ _ _ latest_url_ok) in Hrun. }
  destruct (String.eqb_spec path "/random") as [-> | H3].
  { intros [= <- _]. rewrite fetched_run.
    destruct (getRandomXkcd env s) as [[r | e] s1] eqn:Hrun; intros [= _ <-];
      now apply getRandomXkcd_sends in Hrun. }
  destruct (numeric_path path).
  { intros [= <- _]. rewrite fetched_run.
    destruct (getXkcdByNumber env (parseInt (substring1 path)) s)
      as [[r | e] s1] eqn:Hrun; intros [= _ <-];
      now apply (fetchWithCache_sends env _ _ _ _ _ (comic_url_ok env _)) in Hrun. }
  destruct (path =? "/cache/stats")%string.
  { intros [= <- _] [= _ <-]. apply sends_weaken with 0%nat; [lia | apply sends_refl]. }
  destruct (path =? "/cache/clear")%string; [| discriminate].
  intros [= <- _] [= _ <-]. exists []. simpl. rewrite app_nil_r.
  repeat split; auto; lia.
Qed.

Lemma handler_effect env method path s :
  exists r s' l,
    handler env method path s = (Return r, s') /\
    requests s' = (requests s ++ l)%list /\
    (List.length l <= if (path =? "/random")%string then 2 else 1)%nat /\
    Forall xkcd_url l /\
    (JsMap.size (cache s') <= JsMap.size (cache s) + List.length l)%nat /\
    (method = "OPTIONS" -> l = [] /\ cache s' = cache s).
Proof.
  assert (Hnone : forall r s',
             handler env method path s = (Return r, s') ->
             requests s' = requests s -> cache s' = cache s ->
             exists r s' l,
               handler env method path s = (Return r, s') /\
               requests s' = (requests s ++ l)%list /\
               (List.length l <= if (path =? "/random")%string then 2 else 1)%nat /\
               Forall xkcd_url l /\
               (JsMap.size (cache s') <= JsMap.size (cache s) + List.length l)%nat /\
               (method = "OPTIONS" -> l = [] /\ cache s' = cache s)).
  { intros r s' Hrun Hreq Hcache. exists r, s', [].
    rewrite app_nil_r, Hcache. simpl.
    split; [exact Hrun |]. split; [exact Hreq |].
    split; [destruct (path =? "/random")%string; lia |].
    split; [constructor |]. split; [lia | tauto]. }
  destruct (String.eqb_spec method "OPTIONS") as [-> | Hm].
  - apply (Hnone _ _ (handler_preflight env path s)); reflexivity.
  - pose proof (handler_operation env method path s Hm) as Hrun.
    destruct (operation env path) as [[op endpoint] |] eqn:Hop.
    + destruct (op (tick s)) as [[r | e] s1] eqn:Hop_run;
        destruct (operation_sends env path op endpoint (tick s) _ s1 Hop Hop_run)
          as (l & Hreq & Hlen & Hurl & Hsize & _);
        eexists; eexists; exists l;
        (split; [exact Hrun |]); simpl in *;
        repeat split; auto; contradiction.
    + apply (Hnone _ _ Hrun); reflexivity.
Qed.

(** ** Properties of the handler *)

(** Property X6.  The upstream budget of a request.  Whatever the request and
    whatever the upstream answers, the handler returns a response after at
    most two upstream requests, and at most one unless the path is
    [/random]; a preflight sends none.  Every request sent goes to
    [https://xkcd.com/...info.0.json]. *)
Theorem handler_upstream_budget env method path s :
  exists r s' l,
    handler env method path s = (Return r, s') /\
    requests s' = (requests s ++ l)%list /\
    (List.length l <= 2)%nat /\
    (path <> "/random" -> (List.length l <= 1)%nat) /\
    (method = "OPTIONS" -> l = []) /\
    Forall xkcd_url l.
Proof.
  destruct (handler_effect env method path s)
    as (r & s' & l & Hrun & Hreq & Hlen & Hurl & _ & Hopt).
  exists r, s', l. repeat split; auto.
  - destruct (path =? "/random")%string; lia.
  - intros Hne. destruct (String.eqb_spec path "/random"); [contradiction | lia].
  - intros Hm. now destruct (Hopt Hm).
Qed.

(** Property X7.  The store grows only by fetching: after a request it holds
    at most one entry more for each upstream request that was sent, so a
    request served without the upstream (a hit, the statistics, a clear, a
    not-found, a preflight) never grows it; a preflight leaves it as it
    is. *)
Theorem store_grows_only_by_fetching env method path s :
  let s' := snd (handler env method path s) in
  (JsMap.size (cache s') + List.length (requests s)
   <= JsMap.size (cache s) + List.length (requests s'))%nat /\
  (method = "OPTIONS" -> cache s' = cache s).
Proof.
  destruct (handler_effect env method path s)
    as (r & s' & l & Hrun & Hreq & _ & _ & Hsize & Hopt).
  rewrite Hrun. simpl. rewrite Hreq, length_app. split; [lia |].
  intros Hm. now destruct (Hopt Hm).
Qed.

(** Property X8.  The handler looks at the method only to recognise the
    preflight: two requests for the same path whose methods are both other
    than [OPTIONS] get the same response and leave the same store, the same
    upstream requests and the same random draws behind. *)
Theorem method_is_ignored env m1 m2 path s :
  m1 <> "OPTIONS" -> m2 <> "OPTIONS" ->
  fst (handler env m1 path s) = fst (handler env m2 path s) /\
  cache (snd (handler env m1 path s)) = cache (snd (handler env m2 path s)) /\
  requests (snd (handler env m1 path s)) = requests (snd (handler env m2 path s)) /\
  draws (snd (handler env m1 path s)) = draws (snd (handler env m2 path s)).
Proof.
  intros H1 H2. rewrite !handler_operation by assumption.
  destruct (operation env path) as [[op endpoint] |]; [| repeat split].
  destruct (op (tick s)) as [[r | e] s1]; repeat split.
Qed.

Lemma method_is_ignored_witness :
  fst (handler online "DELETE" "/cache/clear" (one_entry "latest" (JNum 7) 1)) =
    fst (handler online "GET" "/cache/clear" (one_entry "latest" (JNum 7) 1)) /\
  cache (snd (handler online "DELETE" "/cache/clear" (one_entry "latest" (JNum 7) 1))) =
    cache (snd (handler online "GET" "/cache/clear" (one_entry "latest" (JNum 7) 1))) /\
  requests (snd (handler online "DELETE" "/cache/clear" (one_entry "latest" (JNum 7) 1))) =
    requests (snd (handler online "GET" "/cache/clear" (one_entry "latest" (JNum 7) 1))) /\
  draws (snd (handler online "DELETE" "/cache/clear" (one_entry "latest" (JNum 7) 1))) =
    draws (snd (handler online "GET" "/cache/clear" (one_entry "latest" (JNum 7) 1))).
Proof.
  apply (method_is_ignored online "DELETE" "GET" "/cache/clear"
           (one_entry "latest" (JNum 7) 1)); discriminate.
Defined.

Lemma or_else_nonempty x : or_else x "Internal Server Error" <> "".
Proof.
  unfold or_else. destruct (String.eqb_spec x ""); [discriminate | assumption].
Qed.

Lemma cors_in_success d hit endpoint stamp :
  incl corsHeaders (headers (success_envelope d hit endpoint stamp)).
Proof.
  unfold success_envelope. cbn [headers]. intros h Hin. apply in_or_app. now left.
Qed.

(** Property X9.  The shape of every response.  The handler never throws; its
    status is 200, 204, 404 or 500, and it is 204 exactly for a preflight;
    every response carries all the CORS headers; a 200 is a success envelope,
    whose [X-Cache] header agrees with its [cached] field; a 500 carries a
    non-empty error message; a 404 names the path. *)
Theorem response_shape env method path s :
  exists r s',
    handler env method path s = (Return r, s') /\
    handler_status (status r) /\
    (status r = 204 <-> method = "OPTIONS") /\
    incl corsHeaders (headers r) /\
    (status r = 200 ->
     exists d hit endpoint stamp, r = success_envelope d hit endpoint stamp) /\
    (status r = 404 -> r = not_found_envelope path) /\
    (status r = 500 -> exists msg, msg <> "" /\ r = error_envelope msg) /\
    (status r = 204 -> body r = None).
Proof.
  unfold handler_status.
  destruct (String.eqb_spec method "OPTIONS") as [-> | Hm].
  - rewrite handler_preflight. eexists. eexists. split; [reflexivity |].
    cbn [status headers body].
    split; [tauto |]. split; [tauto |]. split; [apply incl_refl |].
    repeat split; discriminate.
  - rewrite handler_operation by assumption.
    destruct (operation env path) as [[op endpoint] |].
    + destruct (op (tick s)) as [[r | e] s1];
        eexists; eexists; (split; [reflexivity |]).
      * split; [simpl; tauto |].
        split; [simpl; split; [discriminate | contradiction] |].
        split; [apply cors_in_success |].
        split; [intros _; do 4 eexists; reflexivity |].
        simpl. repeat split; discriminate.
      * split; [simpl; tauto |].
        split; [simpl; split; [discriminate | contradiction] |].
        split; [apply incl_refl |].
        split; [simpl; discriminate |]. split; [simpl; discriminate |].
        split; [| simpl; discriminate].
        intros _. eexists. split; [apply or_else_nonempty | reflexivity].
    + eexists. eexists. split; [reflexivity |].
      split; [simpl; tauto |].
      split; [simpl; split; [discriminate | contradiction] |].
      split; [apply incl_refl |].
      split; [simpl; discriminate |]. split; [reflexivity |].
      split; simpl; discriminate.
Qed.

(** Property X10.  One line per request.  Every request appends exactly one
    request line to the console, the last thing it does; the status on the
    line is the status of the response, and the duration is the clock read
    just before logging minus the clock read on entry.  A 500 response, and
    only a 500 response, is preceded by one error line for the error
    caught; nothing else is printed. *)
Theorem one_line_per_request env method path s :
  exists r s',
    handler env method path s = (Return r, s') /\
    let line :=
      ConsoleLog (request_line env (clock env (pred (ticks s'))) method path (status r)
                    (clock env (pred (pred (ticks s'))) - clock env (ticks s))) in
    (status r <> 500 /\ console s' = (console s ++ [line])%list) \/
    (status r = 500 /\
     exists e, console s' = (console s ++ [ConsoleError "Error:" e; line])%list /\
               r = error_envelope (or_else (message e) "Internal Server Error")).
Proof.
  destruct (String.eqb_spec method "OPTIONS") as [-> | Hm].
  - rewrite handler_preflight. eexists. eexists. split; [reflexivity |].
    left. split; [discriminate | reflexivity].
  - rewrite handler_operation by assumption.
    destruct (operation env path) as [[op endpoint] |] eqn:Hop.
    + destruct (op (tick s)) as [[r | e] s1] eqn:Hrun;
        destruct (operation_sends env path op endpoint (tick s) _ s1 Hop Hrun)
          as (l & _ & _ & _ & _ & Hcon);
        eexists; eexists; (split; [reflexivity |]); simpl in *.
      * left. split; [discriminate |]. now rewrite Hcon.
      * right. split; [reflexivity |]. exists e. rewrite Hcon.
        split; [| reflexivity]. now rewrite <- app_assoc.
    + eexists. eexists. split; [reflexivity |].
      left. split; [discriminate | reflexivity].
Qed.

(** ** The invariant of the store *)

Lemma cache_key_latest env : cache_key env "latest".
Proof. now left. Qed.

Lemma cache_key_comic env num : cache_key env ("comic-" ++ number_to_string env num).
Proof. right. now exists num. Qed.

Lemma fetchWithCache_store_ok env url key s o s' :
  cache_key env key ->
  fetchWithCache env url key s = (o, s') ->
  store_ok env (cache s) -> store_ok env (cache s').
Proof.
  intros Hkey Hrun [Hwf Hkeys].
  split; [exact (fetchWithCache_wf env url key s o s' Hrun Hwf) |].
  destruct (getCached_total env key s) as (c & s1 & Hlookup & Hcache & _).
  assert (H1 : Forall (cache_key env) (JsMap.keys (cache s1))).
  { destruct Hcache as [-> | [-> _]]; [assumption |].
    rewrite Forall_forall in *. intros k Hin. apply Hkeys.
    eapply keys_delete; eassumption. }
  destruct o as [r | e].
  - destruct (fetchWithCache_return env url key s s1 c Hlookup r s' Hrun)
      as [(_ & _ & ->) | (_ & _ & ->)]; [assumption |].
    simpl. rewrite Forall_forall in *. intros k Hin.
    destruct (keys_set _ _ _ _ Hin) as [-> | Hin']; [assumption | now apply H1].
  - now rewrite (fetchWithCache_throw env url key s s1 c Hlookup e s' Hrun).
Qed.

Lemma getRandomXkcd_store_ok env s o s' :
  getRandomXkcd env s = (o, s') ->
  store_ok env (cache s) -> store_ok env (cache s').
Proof.
  unfold getRandomXkcd, bind. intros Hrun Hok.
  destruct (getLatestXkcd env s) as [[r | e] s1] eqn:Hlatest;
    apply (fetchWithCache_store_ok env _ _ _ _ _ (cache_key_latest env)) in Hlatest;
    try assumption.
  - unfold Math_random in Hrun.
    destruct (read_num (result_data r) (drawn s1)) as [[n | e] s2] eqn:Hnum.
    + assert (s2 = drawn s1) as ->.
      { destruct (result_data r); simpl in Hnum; unfold ret, throw in Hnum; congruence. }
      apply (fetchWithCache_store_ok env _ _ _ _ _ (cache_key_comic env _)) in Hrun;
        assumption.
    + destruct (result_data r); simpl in Hnum; unfold ret, throw in Hnum;
        try discriminate.
      injection Hnum as _ <-. injection Hrun as _ <-. assumption.
  - injection Hrun as _ <-. assumption.
Qed.

Lemma operation_store_ok env path op endpoint s o s' :
  operation env path = Some (op, endpoint) ->
  op s = (o, s') ->
  store_ok env (cache s) -> store_ok env (cache s').
Proof.
  unfold operation. intros Hop Hrun Hok.
  destruct ((path =? "/")%string || (path =? "/latest")%string).
  { injection Hop as <- _. rewrite fetched_run in Hrun.
    destruct (getLatestXkcd env s) as [[r | e] s1] eqn:Hf; injection Hrun as _ <-;
      exact (fetchWithCache_store_ok env _ _ _ _ _ (cache_key_latest env) Hf Hok). }
  destruct (path =? "/random")%string.
  { injection Hop as <- _. rewrite fetched_run in Hrun.
    destruct (getRandomXkcd env s) as [[r | e] s1] eqn:Hf; injection Hrun as _ <-;
      exact (getRandomXkcd_store_ok env _ _ _ Hf Hok). }
  destruct (numeric_path path).
  { injection Hop as <- _. rewrite fetched_run in Hrun.
    destruct (getXkcdByNumber env (parseInt (substring1 path)) s)
      as [[r | e] s1] eqn:Hf; injection Hrun as _ <-;
      exact (fetchWithCache_store_ok env _ _ _ _ _ (cache_key_comic env _) Hf Hok). }
  destruct (path =? "/cache/stats")%string.
  { injection Hop as <- _. injection Hrun as _ <-. assumption. }
  destruct (path =? "/cache/clear")%string; [| discriminate].
  injection Hop as <- _. injection Hrun as _ <-. simpl.
  split; constructor.
Qed.

(** Property X11.  The invariant of the store.  A store whose keys are
    pairwise distinct and are each [latest] or [comic-<number>] (as the
    empty store of a fresh process is) is left so by every request, whatever
    the method, the path and the upstream. *)
Theorem store_invariant env method path s :
  store_ok env (cache s) ->
  exists r s', handler env method path s = (Return r, s') /\ store_ok env (cache s').
Proof.
  intros Hok.
  destruct (String.eqb_spec method "OPTIONS") as [-> | Hm].
  - rewrite handler_preflight. eexists. eexists. split; [reflexivity | assumption].
  - rewrite handler_operation by assumption.
    destruct (operation env path) as [[op endpoint] |] eqn:Hop.
    + destruct (op (tick s)) as [[r | e] s1] eqn:Hrun;
        apply (operation_store_ok env path op endpoint (tick s) _ s1 Hop) in Hrun;
        try assumption;
        eexists; eexists; (split; [reflexivity | assumption]).
    + eexists. eexists. split; [reflexivity | assumption].
Qed.

Lemma store_invariant_witness :
  exists r s',
    handler online "GET" "/random" initial_state = (Return r, s') /\
    store_ok online (cache s').
Proof.
  apply (store_invariant online "GET" "/random" initial_state).
  split; constructor.
Defined.

(** ** Numbers in paths *)

Lemma round53_ge_pow2 k x : 0 <= k -> 2 ^ k <= x -> 2 ^ k <= Number.round53 x.
Proof.
  intros Hk Hx. destruct (Z_lt_le_dec x (2 ^ 53)) as [Hs | Hl].
  - rewrite round53_small; assumption.
  - destruct (round53_large x Hl)
      as (s & q & r & Hs & Hs1 & Hxq & Hr & Hq & Hd & Hh & Hround).
    assert (Hpos : 0 < x) by (pose proof (Z.pow_pos_nonneg 2 53); lia).
    assert (Hlog : k <= Z.log2 x) by (apply Z.log2_le_pow2; lia).
    assert (Hsplit : 2 ^ Z.log2 x = 2 ^ 52 * 2 ^ s).
    { rewrite <- Z.pow_add_r by lia. f_equal. lia. }
    assert (Hmono : 2 ^ k <= 2 ^ Z.log2 x) by (apply Z.pow_le_mono_r; lia).
    destruct Hround as [-> | [-> _]]; nia.
Qed.

(** The integers that are too large for a finite double. *)
Lemma of_Z_overflow z :
  0 <= z -> (Number.of_Z z = Number.Infinity <-> 2 ^ 1024 - 2 ^ 970 <= z).
Proof.
  intros Hz. unfold Number.of_Z, Number.fl, Number.overflow_threshold.
  destruct (Z.ltb_spec z 0); [lia |].
  pose proof (round53_nonneg z Hz) as Hr0. rewrite Z.abs_eq by assumption.
  assert (E1024 : 2 ^ 1024 = 2 ^ 53 * (2 * 2 ^ 970))
    by (rewrite <- (Z.pow_succ_r 2 970), <- Z.pow_add_r by lia; reflexivity).
  assert (E971 : 2 ^ 971 = 2 * 2 ^ 970)
    by (rewrite <- (Z.pow_succ_r 2 970) by lia; reflexivity).
  assert (E1023 : 2 ^ 1023 = 2 ^ 52 * (2 * 2 ^ 970))
    by (rewrite <- (Z.pow_succ_r 2 970), <- Z.pow_add_r by lia; reflexivity).
  assert (H970 : 1 <= 2 ^ 970) by (apply (Z.pow_le_mono_r 2 0 970); lia).
  destruct (Z.leb_spec (2 ^ 1024) (Number.round53 z)) as [Hinf | Hfin].
  - split; [intros _ | reflexivity].
    destruct (Z_lt_le_dec z (2 ^ 1024 - 2 ^ 970)) as [Hlt | Hge]; [exfalso | exact Hge].
    destruct (Z_lt_le_dec z (2 ^ 53)) as [Hs | Hl].
    + rewrite round53_small in Hinf by assumption. lia.
    + destruct (round53_large z Hl)
        as (s & q & r & Hs & Hs1 & Hxq & Hr & Hq & Hd & Hh & Hround).
      assert (Hlog : Z.log2 z < 1024) by (apply Z.log2_lt_pow2; lia).
      assert (Hhalf : 2 ^ (s - 1) <= 2 ^ 970) by (apply Z.pow_le_mono_r; lia).
      rewrite E1024 in *.
      set (h := 2 ^ (s - 1)) in *. set (T := 2 ^ s) in *. set (A := 2 ^ 970) in *.
      clearbody h T A.
      destruct Hround as [E | [E Hup]]; rewrite E in Hinf; lia.
  - split; [discriminate | intros Hge; exfalso].
    destruct (Z_lt_le_dec z (2 ^ 1024)) as [Hlt | Hbig].
    2:{ pose proof (round53_ge_pow2 1024 z ltac:(lia) Hbig). lia. }
    assert (Hl : 2 ^ 53 <= z) by lia.
    assert (Hlog : Z.log2 z = 1023).
    { apply Z.log2_unique; [lia |]. change (1023 + 1) with 1024. lia. }
    unfold Number.round53, Number.precision in Hfin.
    destruct (Z.ltb_spec z (2 ^ 53)); [lia |].
    rewrite Hlog in Hfin.
    change (1023 - (53 - 1)) with 971 in Hfin. change (971 - 1) with 970 in Hfin.
    assert (HT : 0 < 2 ^ 971) by lia.
    pose proof (Z.div_mod z (2 ^ 971) ltac:(lia)) as Hdm.
    pose proof (Z.mod_pos_bound z (2 ^ 971) HT) as Hmod.
    set (q := z / 2 ^ 971) in *. set (r := z mod 2 ^ 971) in *.
    rewrite E1024, E971 in *.
    set (A := 2 ^ 970) in *. clearbody q r A.
    assert (Hq : q = 2 ^ 53 - 1) by nia.
    subst q.
    destruct (Z.ltb_spec r A); [lia |].
    change (Z.even (2 ^ 53 - 1)) with false in Hfin.
    rewrite andb_false_r in Hfin. simpl in Hfin. lia.
Qed.

Lemma digit_value_range c : is_digit c = true -> 0 <= digit_value c <= 9.
Proof.
  unfold is_digit, digit_value. intros H. apply andb_prop in H.
  destruct H as [H1 H2]. apply Z.leb_le in H1. apply Z.leb_le in H2. lia.
Qed.

Lemma denote_nonneg d : all_digits d = true -> 0 <= denote d.
Proof.
  induction d as [| c rest IH]; simpl; [lia |].
  intros H. apply andb_prop in H. destruct H as [Hc Hrest].
  pose proof (digit_value_range c Hc).
  assert (0 < 10 ^ Z.of_nat (String.length rest)) by (apply Z.pow_pos_nonneg; lia).
  specialize (IH Hrest). nia.
Qed.

(** Property X12.  Numbers too long for a double.  A digit path is parsed to
    [Infinity] exactly when the integer it denotes is [2^1024 - 2^970] or
    more; such a request is not refused: with no entry for [comic-Infinity]
    the handler asks the upstream for [https://xkcd.com/Infinity/info.0.json]. *)
Theorem overlong_number_is_infinity env method d s :
  method <> "OPTIONS" ->
  d <> "" -> all_digits d = true ->
  (parseInt d = Number.Infinity <-> 2 ^ 1024 - 2 ^ 970 <= denote d) /\
  (2 ^ 1024 - 2 ^ 970 <= denote d ->
   JsMap.get "comic-Infinity" (cache s) = None ->
   exists r s',
     handler env method (String "/" d) s = (Return r, s') /\
     requests s' = (requests s ++ ["https://xkcd.com/Infinity/info.0.json"])%list).
Proof.
  intros Hm Hne Hd.
  pose proof (parseInt_digits d Hne Hd) as Hparse.
  pose proof (of_Z_overflow (denote d) (denote_nonneg d Hd)) as Hover.
  split; [now rewrite Hparse |].
  intros Hbig Hget. rewrite handler_numeric by assumption.
  rewrite Hparse, (proj2 Hover Hbig).
  destruct (getXkcdByNumber env Number.Infinity (tick s)) as [[r | e] s1] eqn:Hrun;
    apply (fetchWithCache_absent_requests env _ "comic-Infinity" (tick s)) in Hrun;
    try exact Hget.
  - rewrite respond_run. eexists. eexists. split; [reflexivity | exact Hrun].
  - rewrite recover_run. eexists. eexists. split; [reflexivity | exact Hrun].
Qed.

Lemma overlong_number_witness :
  let d := String "1" (string_of_list_ascii (repeat "0"%char 309)) in
  (parseInt d = Number.Infinity <-> 2 ^ 1024 - 2 ^ 970 <= denote d) /\
  (2 ^ 1024 - 2 ^ 970 <= denote d ->
   JsMap.get "comic-Infinity" (cache initial_state) = None ->
   exists r s',
     handler online "GET" (String "/" d) initial_state = (Return r, s') /\
     requests s' = ([] ++ ["https://xkcd.com/Infinity/info.0.json"])%list).
Proof.
  intros d.
  apply (overlong_number_is_infinity online "GET" d initial_state).
  - discriminate.
  - discriminate.
  - vm_compute. reflexivity.
Defined.

(** *** The decimal form of a number *)

Lemma parse_digits_acc l acc :
  parse_digits (Z.pos acc) true (NilEmpty.string_of_uint l) =
  Some (Z.pos (Pos.of_uint_acc l acc)).
Proof.
  revert acc. induction l; intros acc; simpl NilEmpty.string_of_uint;
    cbn [parse_digits Pos.of_uint_acc];
    [reflexivity | ..];
    (match goal with
     | |- context [is_digit ?c] =>
         change (is_digit c) with true;
         let v := eval compute in (digit_value c) in
         change (digit_value c) with v
     end; cbv iota;
     match goal with
     | |- parse_digits ?z true _ = Some (Z.pos (Pos.of_uint_acc _ ?p)) =>
         replace z with (Z.pos p) by lia; apply IHl
     end).
Qed.

Lemma parse_digits_uint l :
  parse_digits 0 true (NilEmpty.string_of_uint l) = Some (Z.of_N (Pos.of_uint l)).
Proof.
  induction l; simpl NilEmpty.string_of_uint; cbn [parse_digits Pos.of_uint];
    [reflexivity | exact IHl | ..];
    (match goal with
     | |- context [is_digit ?c] => change (is_digit c) with true
     end; cbv iota; apply parse_digits_acc).
Qed.

Lemma all_digits_uint l : all_digits (NilEmpty.string_of_uint l) = true.
Proof. induction l; simpl; auto. Qed.

Lemma parse_digits_unseen acc s :
  s <> "" -> all_digits s = true ->
  parse_digits acc false s = parse_digits acc true s.
Proof.
  destruct s as [| c rest]; [congruence |]. simpl. intros _ H.
  apply andb_prop in H. destruct H as [-> _]. reflexivity.
Qed.

Lemma string_of_uint_nonempty l : l <> Decimal.Nil -> NilEmpty.string_of_uint l <> "".
Proof. destruct l; simpl; congruence. Qed.

(** The printed form of a natural number up to [2^53] is a non-empty string
    of digits that reads back as the number. *)
Lemma decimal_form env n :
  0 <= n <= 2 ^ 53 ->
  let p := number_to_string env (Number.Int n) in
  p <> "" /\ all_digits p = true /\ parse_digits 0 false p = Some n.
Proof.
  intros [H0 H21]. cbv zeta. unfold number_to_string.
  rewrite Z.abs_eq by assumption.
  destruct (Z.leb_spec n (2 ^ 53)); [| lia].
  destruct n as [| q | q]; [repeat split; discriminate | | lia].
  unfold Z.to_int, NilZero.string_of_int, NilZero.string_of_uint.
  pose proof (DecimalPos.Unsigned.to_uint_nonnil q) as Hnil.
  destruct (Pos.to_uint q) as [| | | | | | | | | |] eqn:Hq; [congruence | ..];
    rewrite <- Hq;
    (split; [apply string_of_uint_nonempty; congruence |]);
    (split; [apply all_digits_uint |]);
    (rewrite parse_digits_unseen
       by (try apply all_digits_uint; apply string_of_uint_nonempty; congruence));
    rewrite parse_digits_uint, DecimalPos.Unsigned.of_to; reflexivity.
Qed.

(** Every natural number up to [2^53] is a double. *)
Lemma safe_integer_is_double n : 0 <= n <= 2 ^ 53 -> is_double n.
Proof.
  intros [H0 H53]. unfold is_double, Number.fl, Number.overflow_threshold.
  destruct (Z.ltb_spec n 0); [lia |]. split.
  - destruct (Z_lt_le_dec n (2 ^ 53)) as [Hlt | Hge].
    + now apply round53_small.
    + replace n with (2 ^ 53) by lia. reflexivity.
  - rewrite Z.abs_eq by assumption.
    assert (2 ^ 53 < 2 ^ 1024) by (apply Z.pow_lt_mono_r; lia). lia.
Qed.

(** Property X13.  The round trip of a comic number.  For a natural number
    [n] up to [2^53], the form that the program prints in the endpoint label
    and in the cache key is a numeric path segment, and [parseInt] reads it
    back as [n]: the request for [/<n>] is the fetch of comic [n], labelled
    [comic-<n>]. *)
Theorem comic_number_round_trip env method n start :
  0 <= n <= 2 ^ 53 ->
  let p := number_to_string env (Number.Int n) in
  numeric_path (String "/" p) = true /\
  parseInt p = Number.Int n /\
  dispatch env method (String "/" p) start =
  bind (getXkcdByNumber env (Number.Int n))
       (fun r => respond env method (String "/" p) start (unpack r) ("comic-" ++ p)).
Proof.
  intros Hn p. destruct (safe_integer_is_double n Hn) as [Hfix Hfin].
  destruct (decimal_form env n Hn) as (Hne & Hd & Hparse). fold p in Hne, Hd, Hparse.
  assert (Hint : parseInt p = Number.Int n).
  { unfold parseInt. rewrite Hparse. unfold Number.of_Z. rewrite Hfix.
    unfold Number.overflow_threshold in *.
    destruct (Z.leb_spec (2 ^ 1024) (Z.abs n)); [lia | reflexivity]. }
  split; [| split; [exact Hint |]].
  - apply numeric_path_spec. exists p. auto.
  - rewrite dispatch_numeric by assumption. now rewrite Hint.
Qed.

Lemma comic_number_round_trip_witness :
  numeric_path "/2024" = true /\
  parseInt "2024" = Number.Int 2024 /\
  dispatch online "GET" "/2024" 0 =
  bind (getXkcdByNumber online (Number.Int 2024))
       (fun r => respond online "GET" "/2024" 0 (unpack r) "comic-2024").
Proof.
  apply (comic_number_round_trip online "GET" 2024 0).
  split; [lia | vm_compute; discriminate].
Defined.

(** ** The random operation on a document without an ordinal *)

(** Property X14.  No validation of the latest document.  When the latest
    document is not [null] and has no [num] property, the random operation
    still draws a number, computes [NaN] from it and goes on to fetch
    [https://xkcd.com/NaN/info.0.json] under the cache key [comic-NaN]. *)
Theorem random_without_ordinal env s r s1 :
  getLatestXkcd env s = (Return r, s1) ->
  has_no_num (result_data r) ->
  getRandomXkcd env s =
  fetchWithCache env "https://xkcd.com/NaN/info.0.json" "comic-NaN" (drawn s1).
Proof.
  intros Hrun Hnum. unfold getRandomXkcd.
  rewrite (run_bind _ _ _ _ _ Hrun).
  unfold bind, Math_random, read_num.
  destruct (result_data r) as [| b | z | str | items | fields]; simpl in Hnum;
    try contradiction; try reflexivity.
  unfold ret. now rewrite Hnum.
Qed.

Lemma random_without_ordinal_witness :
  getRandomXkcd online (one_entry "latest" (JObj [("title", JStr "Comic")]) 59) =
  fetchWithCache online "https://xkcd.com/NaN/info.0.json" "comic-NaN"
    (drawn (tick (one_entry "latest" (JObj [("title", JStr "Comic")]) 59))).
Proof.
  apply (random_without_ordinal online
           (one_entry "latest" (JObj [("title", JStr "Comic")]) 59)
           {| result_data := JObj [("title", JStr "Comic")]; result_cached := true |}).
  - reflexivity.
  - reflexivity.
Defined.

(** Property X15.  A latest document that is [null].  When the upstream
    serves [null] as the latest document, the random operation throws on
    reading its [num], after the random number has been drawn and before any
    second request; the handler answers 500. *)
Theorem random_on_null_latest env method s r s1 :
  method <> "OPTIONS" ->
  getLatestXkcd env (tick s) = (Return r, s1) ->
  result_data r = JNull ->
  (exists e, getRandomXkcd env (tick s) = (Throw e, drawn s1)) /\
  exists resp s',
    handler env method "/random" s = (Return resp, s') /\
    status resp = 500 /\ requests s' = requests s1 /\ draws s' = S (draws s1).
Proof.
  intros Hm Hrun Hnull.
  assert (Hthrow : getRandomXkcd env (tick s) =
                   (Throw (Error "Cannot read properties of null (reading 'num')"),
                    drawn s1)).
  { unfold getRandomXkcd. rewrite (run_bind _ _ _ _ _ Hrun).
    unfold bind, Math_random. now rewrite Hnull. }
  split; [eexists; exact Hthrow |].
  rewrite handler_operation by assumption.
  change (operation env "/random") with (Some (fetched (getRandomXkcd env), "random")).
  cbv iota beta. rewrite fetched_run, Hthrow. eexists. eexists. split; [reflexivity |].
  repeat split.
Qed.

Lemma random_on_null_latest_witness :
  let env := {| clock := clock online;
                upstream := fun _ _ => HttpResponse 200 "OK" (BodyJson JNull);
                random := random online;
                to_number_object := to_number_object online;
                to_shortest := to_shortest online;
                to_iso_string := to_iso_string online |} in
  exists resp s',
    handler env "GET" "/random" initial_state = (Return resp, s') /\
    status resp = 500 /\
    requests s' = ["https://xkcd.com/info.0.json"] /\ draws s' = 1%nat.
Proof.
  intros env.
  destruct (random_on_null_latest env "GET" initial_state
              {| result_data := JNull; result_cached := false |}
              (snd (getLatestXkcd env (tick initial_state))))
    as (_ & Hhandler).
  - discriminate.
  - reflexivity.
  - reflexivity.
  - exact Hhandler.
Defined.

(** ** The statistics *)

(** Property X16.  The statistics list what was served.  After a request for
    a comic has been answered with status 200, the key of that comic is in
    the store; a following [/cache/stats] reports the number of entries of
    the store (one at least) and its keys in insertion order, that key among
    them, and does not touch the store: stale entries are counted, not
    evicted. *)
Theorem stats_list_served_comic env m1 m2 d s r s' s2 :
  m1 <> "OPTIONS" -> m2 <> "OPTIONS" ->
  d <> "" -> all_digits d = true ->
  handler env m1 (String "/" d) s = (Return r, s') ->
  status r = 200 ->
  cache s2 = cache s' ->
  In ("comic-" ++ number_to_string env (parseInt d))%string (JsMap.keys (cache s')) /\
  (1 <= JsMap.size (cache s'))%nat /\
  fst (handler env m2 "/cache/stats" s2) =
    Return (success_envelope
              (JObj [ ("size", JNum (Z.of_nat (JsMap.size (cache s'))));
                      ("keys", JArr (map JStr (JsMap.keys (cache s'))));
                      ("maxAge", JNum 3600000) ])
              false "/cache/stats"
              (to_iso_string env (clock env (S (ticks s2))))) /\
  cache (snd (handler env m2 "/cache/stats" s2)) = cache s2.
Proof.
  intros H1 H2 Hne Hd Hrun Hst Hsame.
  rewrite handler_numeric in Hrun by assumption.
  set (key := ("comic-" ++ number_to_string env (parseInt d))%string) in *.
  assert (Hin : In key (JsMap.keys (cache s'))).
  { destruct (getXkcdByNumber env (parseInt d) (tick s)) as [[r0 | e] s1] eqn:Hf.
    - rewrite respond_run in Hrun. injection Hrun as _ <-. simpl.
      apply keys_in_get.
      destruct (getCached_total env key (tick s)) as (c & s0 & Hlookup & _).
      destruct (fetchWithCache_return env _ key (tick s) s0 c Hlookup r0 s1 Hf)
        as [(_ & Ht & ->) | (_ & _ & ->)].
      + destruct (getCached_truthy env key (tick s) c s0 Hlookup Ht)
          as (e & Hget & _ & _ & ->).
        simpl in *. congruence.
      + simpl. rewrite get_set_same. discriminate.
    - rewrite recover_run in Hrun. injection Hrun as <- _. discriminate. }
  split; [exact Hin |]. split.
  - unfold JsMap.size, JsMap.keys in *.
    destruct (cache s'); [contradiction | simpl; lia].
  - rewrite handler_run by assumption. rewrite <- Hsame. split; reflexivity.
Qed.

Lemma stats_list_served_comic_witness :
  let s' := snd (handler online "GET" "/42" initial_state) in
  In "comic-42" (JsMap.keys (cache s')) /\
  (1 <= JsMap.size (cache s'))%nat /\
  fst (handler online "GET" "/cache/stats" s') =
    Return (success_envelope
              (JObj [ ("size", JNum (Z.of_nat (JsMap.size (cache s'))));
                      ("keys", JArr (map JStr (JsMap.keys (cache s'))));
                      ("maxAge", JNum 3600000) ])
              false "/cache/stats"
              (to_iso_string online (clock online (S (ticks s'))))) /\
  cache (snd (handler online "GET" "/cache/stats" s')) = cache s'.
Proof.
  intros s'.
  apply (stats_list_served_comic online "GET" "GET" "42" initial_state
           (success_envelope (JObj [ ("num", JNum 3000); ("title", JStr "Comic") ])
              false "comic-42" "2024-01-01T00:00:00.000Z") s' s');
    first [discriminate | reflexivity].
Defined.

(** ** Random draws *)

Lemma getRandomXkcd_draws env s o s' :
  getRandomXkcd env s = (o, s') ->
  draws s' = draws s \/ draws s' = S (draws s).
Proof.
  unfold getRandomXkcd, bind. intros Hrun.
  destruct (getLatestXkcd env s) as [[r | e] s1] eqn:Hlatest;
    apply (fetchWithCache_sends env _ _ _ _ _ latest_url_ok) in Hlatest;
    destruct Hlatest as [_ Hd1].
  - unfold Math_random in Hrun. right.
    destruct (read_num (result_data r) (drawn s1)) as [[n | e] s2] eqn:Hnum.
    + assert (s2 = drawn s1) as ->.
      { destruct (result_data r); simpl in Hnum; unfold ret, throw in Hnum; congruence. }
      apply (fetchWithCache_sends env _ _ _ _ _ (comic_url_ok env _)) in Hrun.
      destruct Hrun as [_ ->]. simpl. now rewrite Hd1.
    + destruct (result_data r); simpl in Hnum; unfold ret, throw in Hnum;
        try discriminate.
      injection Hnum as _ <-. injection Hrun as _ <-. simpl. now rewrite Hd1.
  - injection Hrun as _ <-. now left.
Qed.

Lemma operation_draws env path op endpoint s o s' :
  operation env path = Some (op, endpoint) ->
  op s = (o, s') ->
  draws s' = draws s \/ path = "/random" /\ draws s' = S (draws s).
Proof.
  unfold operation. intros Hop Hrun.
  destruct ((path =? "/")%string || (path =? "/latest")%string).
  { injection Hop as <- _. rewrite fetched_run in Hrun. left.
    destruct (getLatestXkcd env s) as [[r | e] s1] eqn:Hf; injection Hrun as _ <-;
      now apply (fetchWithCache_sends env _ _ _ _ _ latest_url_ok) in Hf. }
  destruct (String.eqb_spec path "/random") as [-> | Hne].
  { injection Hop as <- _. rewrite fetched_run in Hrun.
    destruct (getRandomXkcd env s) as [[r | e] s1] eqn:Hf; injection Hrun as _ <-;
      destruct (getRandomXkcd_draws env _ _ _ Hf); auto. }
  destruct (numeric_path path).
  { injection Hop as <- _. rewrite fetched_run in Hrun. left.
    destruct (getXkcdByNumber env (parseInt (substring1 path)) s)
      as [[r | e] s1] eqn:Hf; injection Hrun as _ <-;
      now apply (fetchWithCache_sends env _ _ _ _ _ (comic_url_ok env _)) in Hf. }
  destruct (path =? "/cache/stats")%string.
  { injection Hop as <- _. injection Hrun as _ <-. now left. }
  destruct (path =? "/cache/clear")%string; [| discriminate].
  injection Hop as <- _. injection Hrun as _ <-. now left.
Qed.

(** Property X17.  [Math.random] is called by the random operation only, and
    at most once per request: after any other request the number of draws is
    what it was, and after a request for [/random] it is that or one more
    (none when the latest comic could not be had). *)
Theorem random_is_drawn_by_random_only env method path s :
  let s' := snd (handler env method path s) in
  draws s' = draws s \/
  path = "/random" /\ method <> "OPTIONS" /\ draws s' = S (draws s).
Proof.
  destruct (String.eqb_spec method "OPTIONS") as [-> | Hm].
  - rewrite handler_preflight. now left.
  - rewrite handler_operation by assumption.
    destruct (operation env path) as [[op endpoint] |] eqn:Hop; [| now left].
    destruct (op (tick s)) as [[r | e] s1] eqn:Hrun;
      destruct (operation_draws env path op endpoint (tick s) _ s1 Hop Hrun)
        as [Hd | [Hp Hd]]; simpl in *; auto.
Qed.
